(** * OBD2 Data Visualizer: the normalizer [load_data] and the render glue

    A shallow embedding of [src/visualizer.py].  The program is a thin layer
    over pandas, so the development has two parts:

    - [Module Pandas]: the pandas operations the program calls
      ([read_csv], [pivot_table], [groupby(...).mean()], [sort_index],
      [dropna], [ffill], [bfill], [replace], [to_numeric], ...), written as
      functions on column-major frames, each with the behaviour pandas
      documents for the arguments the program passes;
    - [Module Visualizer]: the program itself, statement by statement:
      [load_data], the state helpers, and one run of the main script.

    Files.  A file is the string of its bytes.  [read_csv] decodes them as
    UTF-8, cuts them into records with the states of the C tokenizer, drops
    the records with too many fields, names the columns and infers their
    types.

    Numbers.  A value of a table is an exact rational ([Q], kept in lowest
    terms) or missing (NaN is [None]): a table read from a file is taken to
    hold finite values, and rounding is not modelled.  The normalize branch
    computes on [float64], which adds the infinities, NaN and overflow.

    Text.  A field of the file is missing (an NA token), a number, a
    boolean, or text.  The numeric reading of a field is pandas' own
    business: it is a parameter [to_float] of the development (a [Variable]
    of the sections below).  The closed examples run with [simple_float], a
    reader of plain decimal numerals.  Strings are UTF-8; [lower] lowers the
    ASCII letters only.

    Plotting.  What Plotly and Streamlit do with the data is a parameter
    [plotly] of the main script, which returns or raises.

    Errors.  A Python exception is the [Raise] case of [result]. *)

From Stdlib Require Import List String Ascii Bool Arith ZArith QArith Qreduction.
From Stdlib Require Import DecimalString Qabs.
From Stdlib Require Import Sorting.Sorted Lia.
Import ListNotations.

Close Scope Q_scope.
Open Scope string_scope.
Open Scope nat_scope.
Open Scope list_scope.

(** ** Exceptions and results *)

Inductive exn : Type :=
| UnicodeDecodeError (* read_csv: the bytes are not UTF-8 *)
| ParserError      (* read_csv: the file ends inside a quoted field *)
| EmptyDataError   (* read_csv: no columns to parse from file *)
| KeyError         (* a column label that does not exist *)
| ValueError       (* a column label that is not unique, or that is taken *)
| TypeError        (* arithmetic or mean on text, to_numeric on a frame *)
| AttributeError.  (* a string method on a number *)

Inductive result (A : Type) : Type :=
| Ok (a : A)
| Raise (e : exn).

Arguments Ok {A} a.
Arguments Raise {A} e.

Definition bind {A B : Type} (r : result A) (k : A -> result B) : result B :=
  match r with
  | Ok a => k a
  | Raise e => Raise e
  end.

Notation "x <- r ;; k" := (bind r (fun x => k))
  (at level 61, r at next level, right associativity).

Definition is_some {A : Type} (o : option A) : bool :=
  match o with Some _ => true | None => false end.

(** ** Strings: [str.strip], [str.lower], [in]

    A string is the UTF-8 encoding of a Python [str], byte by byte. *)

Definition in_range (lo hi : nat) (c : ascii) : bool :=
  let n := nat_of_ascii c in (lo <=? n) && (n <=? hi).

Definition is_byte (n : nat) (c : ascii) : bool := nat_of_ascii c =? n.

(** The characters [str.strip] removes are those of [str.isspace]:
    U+0009..U+000D, U+001C..U+0020, U+0085, U+00A0, U+1680,
    U+2000..U+200A, U+2028, U+2029, U+202F, U+205F and U+3000.  The first
    ten are one byte long, the next two are two bytes long, the others
    three. *)
Definition is_space (c : ascii) : bool :=
  in_range 9 13 c || in_range 28 32 c.

Definition is_space2 (a b : ascii) : bool :=
  is_byte 194 a && (is_byte 133 b || is_byte 160 b).

Definition is_space3 (a b c : ascii) : bool :=
  (is_byte 225 a && is_byte 154 b && is_byte 128 c)
  || (is_byte 226 a && is_byte 128 b
      && (in_range 128 138 c || is_byte 168 c || is_byte 169 c || is_byte 175 c))
  || (is_byte 226 a && is_byte 129 b && is_byte 159 c)
  || (is_byte 227 a && is_byte 128 b && is_byte 128 c).

Fixpoint lstrip_bytes (s : list ascii) : list ascii :=
  match s with
  | [] => []
  | a :: r =>
      if is_space a then lstrip_bytes r
      else match r with
           | [] => s
           | b :: r2 =>
               if is_space2 a b then lstrip_bytes r2
               else match r2 with
                    | [] => s
                    | c :: r3 => if is_space3 a b c then lstrip_bytes r3 else s
                    end
           end
  end.

(** The same from the end, on the reversed bytes. *)
Fixpoint rstrip_bytes (s : list ascii) : list ascii :=
  match s with
  | [] => []
  | c :: r =>
      if is_space c then rstrip_bytes r
      else match r with
           | [] => s
           | b :: r2 =>
               if is_space2 b c then rstrip_bytes r2
               else match r2 with
                    | [] => s
                    | a :: r3 => if is_space3 a b c then rstrip_bytes r3 else s
                    end
           end
  end.

Definition lstrip (s : string) : string :=
  string_of_list_ascii (lstrip_bytes (list_ascii_of_string s)).

Definition rstrip (s : string) : string :=
  string_of_list_ascii (rev (rstrip_bytes (rev (list_ascii_of_string s)))).

Definition strip (s : string) : string := rstrip (lstrip s).

(** [str.lower] on ASCII text.  Python lowers the letters outside ASCII
    too; here they are left as they are, and the properties that depend on
    [lower] are stated for ASCII text ([is_ascii]). *)
Definition is_ascii (s : string) : bool :=
  forallb (in_range 0 127) (list_ascii_of_string s).

Definition lower_ascii (c : ascii) : ascii :=
  let n := nat_of_ascii c in
  if (65 <=? n) && (n <=? 90) then ascii_of_nat (n + 32) else c.

Fixpoint lower (s : string) : string :=
  match s with
  | EmptyString => EmptyString
  | String c r => String (lower_ascii c) (lower r)
  end.

(** [contains s sub]: Python's [sub in s]. *)
Fixpoint contains (s sub : string) : bool :=
  prefix sub s ||
  match s with
  | EmptyString => false
  | String _ r => contains r sub
  end.

Definition mem (x : string) (l : list string) : bool :=
  existsb (String.eqb x) l.

(** ** A reader of plain decimal numerals, for the closed examples *)

Definition digit_of (c : ascii) : option Z :=
  let n := nat_of_ascii c in
  if (48 <=? n) && (n <=? 57) then Some (Z.of_nat (n - 48)) else None.

(** [digits acc scale s] reads [s] as a run of decimal digits appended to
    [acc]; [scale] counts the powers of ten read. *)
Fixpoint digits (acc : Z) (scale : positive) (s : string) : option (Z * positive) :=
  match s with
  | EmptyString => Some (acc, scale)
  | String c r =>
      match digit_of c with
      | Some d => digits (10 * acc + d)%Z (10 * scale)%positive r
      | None => None
      end
  end.

Fixpoint split_dot (s : string) : string * option string :=
  match s with
  | EmptyString => (EmptyString, None)
  | String c r =>
      if Ascii.eqb c "."%char then (EmptyString, Some r)
      else let '(a, b) := split_dot r in (String c a, b)
  end.

Definition unsigned_float (s : string) : option Q :=
  let '(ip, fp) := split_dot s in
  match ip, digits 0%Z 1%positive ip with
  | EmptyString, _ => None
  | _, None => None
  | _, Some (i, _) =>
      match fp with
      | None => Some (inject_Z i)
      | Some f =>
          match digits 0%Z 1%positive f with
          | Some (n, sc) => Some (Qred (inject_Z i + Qmake n sc)%Q)
          | None => None
          end
      end
  end.

Definition simple_float (s : string) : option Q :=
  match s with
  | String "-"%char r => option_map (fun q => Qred (- q)%Q) (unsigned_float r)
  | _ => unsigned_float s
  end.


(** ** The pandas operations the program uses *)

Module Pandas.

(** A label or a group key: a number or a string. *)
Inductive scalar : Type :=
| Flt (q : Q)
| Str (s : string).

Definition scalar_eqb (a b : scalar) : bool :=
  match a, b with
  | Flt x, Flt y => Qeq_bool x y
  | Str x, Str y => String.eqb x y
  | _, _ => false
  end.

(** The order [sort_index] and [groupby] sort keys by.  A column read from a
    file holds numbers only or strings only; numbers are put before strings
    to keep the order total. *)
Definition scalar_leb (a b : scalar) : bool :=
  match a, b with
  | Flt x, Flt y => Qle_bool x y
  | Str x, Str y => String.leb x y
  | Flt _, Str _ => true
  | Str _, Flt _ => false
  end.

(** A column with its dtype: float64 (NaN is [None]) or object (strings, NaN
    is [None]). *)
Inductive series : Type :=
| Float64 (xs : list (option Q))
| Object (xs : list (option string)).

(** A DataFrame as [read_csv] returns it: the columns in order, by label. *)
Definition frame : Type := list (string * series).

(** A DataFrame of floats with a row index: what [pivot_table] and
    [groupby(...).mean()] return, and the canonical table of the program. *)
Record table : Type := {
  index : list scalar;
  cols : list (scalar * list (option Q))
}.

Definition columns (df : frame) : list string := map fst df.

Definition keys (s : series) : list (option scalar) :=
  match s with
  | Float64 xs => map (option_map Flt) xs
  | Object xs => map (option_map Str) xs
  end.

Fixpoint present {A : Type} (l : list (option A)) : list A :=
  match l with
  | [] => []
  | Some a :: r => a :: present r
  | None :: r => present r
  end.

Fixpoint mapM {A B : Type} (f : A -> result B) (l : list A) : result (list B) :=
  match l with
  | [] => Ok []
  | a :: r => b <- f a ;; bs <- mapM f r ;; Ok (b :: bs)
  end.

(** *** read_csv(file, sep=';', on_bad_lines='skip')

    The file is the uploaded bytes.  They are decoded as UTF-8, cut into
    records by the tokenizer, filtered by the end-of-line rule, named by the
    header and typed column by column. *)

(** **** Decoding *)

Definition continuation : ascii -> bool := in_range 128 191.

Definition utf8_three (a b c : ascii) : bool :=
  ((is_byte 224 a && in_range 160 191 b)
   || (in_range 225 236 a && continuation b)
   || (is_byte 237 a && in_range 128 159 b)
   || (in_range 238 239 a && continuation b))
  && continuation c.

Definition utf8_four (a b c d : ascii) : bool :=
  ((is_byte 240 a && in_range 144 191 b)
   || (in_range 241 243 a && continuation b)
   || (is_byte 244 a && in_range 128 143 b))
  && continuation c && continuation d.

(** The strict UTF-8 decoder accepts the well-formed byte sequences only. *)
Fixpoint utf8_valid (s : string) : bool :=
  match s with
  | EmptyString => true
  | String a r =>
      if in_range 0 127 a then utf8_valid r
      else match r with
           | EmptyString => false
           | String b r2 =>
               if in_range 194 223 a && continuation b then utf8_valid r2
               else match r2 with
                    | EmptyString => false
                    | String c r3 =>
                        if utf8_three a b c then utf8_valid r3
                        else match r3 with
                             | EmptyString => false
                             | String d r4 => utf8_four a b c d && utf8_valid r4
                             end
                    end
           end
  end.

(** A byte order mark at the start of the file is skipped. *)
Definition skip_bom (s : string) : string :=
  match s with
  | String a (String b (String c r)) =>
      if is_byte 239 a && is_byte 187 b && is_byte 191 c then r else s
  | _ => s
  end.

(** **** The tokenizer

    The states of the C tokenizer that the arguments of the program can
    reach: the separator is [;], the quote character is the double quote,
    a doubled quote inside a quoted field is a quote, a line ends with LF,
    CR or CR LF, and empty lines and lines of blanks are skipped.  A line
    is ended where its CR is read, so the two states that wait for the LF
    of a CR LF are one here, [EAT_CRNL].  Where a line starts with a
    blank, the C code reads on and, if the line is not blank, steps back to
    the last LF; here the tokenizer looks ahead and does not move.  The two
    agree in a file whose lines end with LF or CR LF, which the properties
    on the success of the read assume ([no_lone_CR]). *)

Definition LF : ascii := ascii_of_nat 10.
Definition CR : ascii := ascii_of_nat 13.
Definition quotechar : ascii := ascii_of_nat 34.
Definition delimiter : ascii := ";"%char.

(** The white space of the tokenizer: the space and the tab. *)
Definition is_blank (c : ascii) : bool := is_byte 32 c || is_byte 9 c.

Inductive state : Type :=
| START_RECORD
| WHITESPACE_LINE
| EAT_CRNL
| START_FIELD
| IN_FIELD
| IN_QUOTED_FIELD
| QUOTE_IN_QUOTED_FIELD.

(** The records are built from the end: the tokenizer run on the rest of
    the file returns the rest of the current field, at the head of the rest
    of the current record, at the head of the records that follow. *)
Definition push_char (c : ascii) (rows : list (list string)) : list (list string) :=
  match rows with
  | (f :: fs) :: rs => (String c f :: fs) :: rs
  | [] :: rs => [String c EmptyString] :: rs
  | [] => [[String c EmptyString]]
  end.

Definition end_field (rows : list (list string)) : list (list string) :=
  match rows with
  | fs :: rs => (EmptyString :: fs) :: rs
  | [] => [[EmptyString]]
  end.

Definition end_line (rows : list (list string)) : list (list string) :=
  [EmptyString] :: rows.

Definition fmap {A B : Type} (f : A -> B) (r : result A) : result B :=
  x <- r ;; Ok (f x).

(** Are the characters up to the end of the line all blanks? *)
Fixpoint blank_line (s : string) : bool :=
  match s with
  | EmptyString => true
  | String c r =>
      if Ascii.eqb c LF || Ascii.eqb c CR then true
      else is_blank c && blank_line r
  end.

(** The end of the file: inside a quoted field it is an error; inside a
    record it ends the field and the line. *)
Definition handle_eof (st : state) : result (list (list string)) :=
  match st with
  | START_RECORD | WHITESPACE_LINE | EAT_CRNL => Ok []
  | IN_QUOTED_FIELD => Raise ParserError
  | START_FIELD | IN_FIELD | QUOTE_IN_QUOTED_FIELD => Ok [[EmptyString]]
  end.

Section Step.

(** [c] is the character read, [next st] the tokenizer in state [st] on the
    characters after [c], and [rest_blank] says whether these are blanks
    up to the end of the line. *)
Variable c : ascii.
Variable next : state -> result (list (list string)).
Variable rest_blank : bool.

Definition in_field : result (list (list string)) :=
  if Ascii.eqb c LF then fmap end_line (next START_RECORD)
  else if Ascii.eqb c CR then fmap end_line (next EAT_CRNL)
  else if Ascii.eqb c delimiter then fmap end_field (next START_FIELD)
  else fmap (push_char c) (next IN_FIELD).

Definition start_field : result (list (list string)) :=
  if Ascii.eqb c quotechar then next IN_QUOTED_FIELD
  else in_field.

Definition start_record : result (list (list string)) :=
  if Ascii.eqb c LF then next START_RECORD
  else if Ascii.eqb c CR then next EAT_CRNL
  else if is_blank c then
    if rest_blank then next WHITESPACE_LINE
    else fmap (push_char c) (next IN_FIELD)
  else start_field.

Definition step (st : state) : result (list (list string)) :=
  match st with
  | START_RECORD => start_record
  | WHITESPACE_LINE =>
      if Ascii.eqb c LF then next START_RECORD
      else if Ascii.eqb c CR then next EAT_CRNL
      else next WHITESPACE_LINE
  | EAT_CRNL =>
      if Ascii.eqb c LF then next START_RECORD else start_record
  | START_FIELD => start_field
  | IN_FIELD => in_field
  | IN_QUOTED_FIELD =>
      if Ascii.eqb c quotechar then next QUOTE_IN_QUOTED_FIELD
      else fmap (push_char c) (next IN_QUOTED_FIELD)
  | QUOTE_IN_QUOTED_FIELD =>
      if Ascii.eqb c quotechar then fmap (push_char c) (next IN_QUOTED_FIELD)
      else in_field
  end.

End Step.

Fixpoint tokenize_bytes (st : state) (s : string) : result (list (list string)) :=
  match s with
  | EmptyString => handle_eof st
  | String c r => step c (fun st' => tokenize_bytes st' r) (blank_line r) st
  end.

Definition tokenize (file : string) : result (list (list string)) :=
  if utf8_valid file then tokenize_bytes START_RECORD (skip_bom file)
  else Raise UnicodeDecodeError.

(** **** The end-of-line rule *)

Definition pad (n : nat) (r : list string) : list string :=
  r ++ repeat EmptyString (n - List.length r).

(** [lines] counts the records kept so far (the header is record 0) and
    [ex_fields] is the field count of the last record kept.  A record with
    more fields than that is a bad line and is skipped, except the first
    data record, which is never bad; a record with fewer fields is
    completed with empty fields. *)
Fixpoint end_lines (lines ex_fields : nat) (rs : list (list string))
  : list (list string) :=
  match rs with
  | [] => []
  | r :: rs' =>
      if negb (lines <=? 1) && (ex_fields <? List.length r)
      then end_lines lines ex_fields rs'
      else let r' := pad ex_fields r in
           r' :: end_lines (S lines) (List.length r') rs'
  end.

(** **** The names of the columns

    An empty header name becomes [Unnamed: i], and a name that was used
    already gets the suffix [.1], [.2], ...: the first suffix that makes a
    name that is neither in the header nor used. *)

Definition str_of_nat (n : nat) : string := NilEmpty.string_of_uint (Nat.to_uint n).

Definition count_of (col : string) (counts : list (string * nat)) : nat :=
  match find (fun e => String.eqb (fst e) col) counts with
  | Some e => snd e
  | None => 0
  end.

Fixpoint set_nth {A : Type} (i : nat) (a : A) (l : list A) : list A :=
  match l, i with
  | [], _ => []
  | _ :: r, 0 => a :: r
  | h :: r, S j => h :: set_nth j a r
  end.

(** The loop [while cur_count > 0].  It ends by itself; [fuel] bounds it
    for the definition to be structural. *)
Fixpoint rename (fuel : nat) (this_header : list string) (old_col col : string)
  (cur_count : nat) (counts : list (string * nat))
  : string * nat * list (string * nat) :=
  match fuel with
  | 0 => (col, cur_count, counts)
  | S fuel' =>
      if cur_count =? 0 then (col, cur_count, counts)
      else
        let counts := (old_col, cur_count + 1) :: counts in
        let col := (old_col ++ "." ++ str_of_nat cur_count)%string in
        if mem col this_header
        then rename fuel' this_header old_col col (cur_count + 1) counts
        else rename fuel' this_header old_col col (count_of col counts) counts
  end.

Fixpoint dedup_names (fuel : nat) (col_loop_order : list nat)
  (this_header : list string) (counts : list (string * nat)) : list string :=
  match col_loop_order with
  | [] => this_header
  | i :: rest =>
      let col := nth i this_header EmptyString in
      let '(col', cur_count, counts') :=
        rename fuel this_header col col (count_of col counts) counts in
      dedup_names fuel rest (set_nth i col' this_header)
                  ((col', cur_count + 1) :: counts')
  end.

Definition header_names (header : list string) : list string :=
  let n := List.length header in
  let this_header :=
    map (fun c => if String.eqb (snd c) EmptyString
                  then ("Unnamed: " ++ str_of_nat (fst c))%string else snd c)
        (combine (seq 0 n) header) in
  let unnamed := filter (fun i => String.eqb (nth i header EmptyString) EmptyString)
                        (seq 0 n) in
  let named := filter (fun i => negb (String.eqb (nth i header EmptyString) EmptyString))
                      (seq 0 n) in
  dedup_names (S n * S n) (named ++ unnamed) this_header [].

(** **** The types of the columns *)

Definition na_values : list string :=
  [EmptyString; "#N/A"; "#N/A N/A"; "#NA"; "-1.#IND"; "-1.#QNAN"; "-NaN"; "-nan";
   "1.#IND"; "1.#QNAN"; "<NA>"; "N/A"; "NA"; "NULL"; "NaN"; "None"; "n/a";
   "nan"; "null"].

Definition is_na (s : string) : bool := mem s na_values.

Definition true_values : list string := ["True"; "TRUE"; "true"].
Definition false_values : list string := ["False"; "FALSE"; "false"].

Definition to_bool (s : string) : option bool :=
  if mem s true_values then Some true
  else if mem s false_values then Some false
  else None.

(** True is 1.0 and False is 0.0. *)
Definition bool_value (b : bool) : Q := if b then 1%Q else 0%Q.

Section Reader.

Variable to_float : string -> option Q.

(** Column type inference.  A column is float64 when every field is an NA
    token or reads as a number.  Failing that, it is boolean when every
    field is an NA token or a boolean token; a boolean column is kept here
    by its numeric value, which is what the division, the mean and
    [to_numeric] make of it.  Otherwise it is object, and so is a column
    without any row. *)
Definition infer_dtype (cells : list string) : series :=
  if Nat.eqb (List.length cells) 0 then Object []
  else if forallb (fun s => is_na s || is_some (to_float s)) cells
  then Float64 (map (fun s => if is_na s then None else to_float s) cells)
  else if forallb (fun s => is_na s || is_some (to_bool s)) cells
  then Float64 (map (fun s => if is_na s then None
                              else option_map bool_value (to_bool s)) cells)
  else Object (map (fun s => if is_na s then None else Some s) cells).

(** The first record is the header.  When the first data record has more
    fields than the header, the leading extra fields are the (unnamed) row
    index and are not columns. *)
Definition read_records (records : list (list string)) : result frame :=
  match records with
  | [] => Raise EmptyDataError
  | header :: rs =>
      let rows := end_lines 1 (List.length header) rs in
      let leading_cols :=
        match rows with
        | [] => 0
        | r :: _ => List.length r - List.length header
        end in
      let body := map (skipn leading_cols) rows in
      Ok (map (fun c => (snd c, infer_dtype (map (fun r => nth (fst c) r EmptyString) body)))
              (combine (seq 0 (List.length header)) (header_names header)))
  end.

Definition read_csv (file : string) : result frame :=
  records <- tokenize file ;;
  read_records records.

(** pd.to_numeric(s, errors='coerce') *)
Definition to_numeric (s : series) : series :=
  match s with
  | Float64 xs => Float64 xs
  | Object xs =>
      Float64 (map (fun x => match x with Some t => to_float t | None => None end) xs)
  end.

End Reader.

(** *** Columns of a frame *)

(** df[name]: the label must exist, and name one column only. *)
Definition get_column (name : string) (df : frame) : result series :=
  match filter (fun c => String.eqb (fst c) name) df with
  | [] => Raise KeyError
  | [c] => Ok (snd c)
  | _ => Raise ValueError
  end.

(** df[name] = s: replaces the column if the label exists, appends it
    otherwise. *)
Definition set_column (name : string) (s : series) (df : frame) : frame :=
  if mem name (columns df)
  then map (fun c => if String.eqb (fst c) name then (name, s) else c) df
  else df ++ [(name, s)].

(** df.drop(columns=[name]) *)
Definition drop_column (name : string) (df : frame) : frame :=
  filter (fun c => negb (String.eqb (fst c) name)) df.

(** df.columns = df.columns.str.strip() *)
Definition strip_columns (df : frame) : frame :=
  map (fun c => (strip (fst c), snd c)) df.

(** s / d.  Dividing a string raises. *)
Definition truediv (s : series) (d : Q) : result series :=
  match s with
  | Float64 xs => Ok (Float64 (map (option_map (fun x => Qred (x / d)%Q)) xs))
  | Object xs => if existsb is_some xs then Raise TypeError else Ok (Object xs)
  end.

(** df.replace(v, np.nan), [v] a string. *)
Definition replace_series (v : string) (s : series) : series :=
  match s with
  | Float64 xs => Float64 xs
  | Object xs =>
      Object (map (fun x => match x with
                            | Some t => if String.eqb t v then None else Some t
                            | None => None
                            end) xs)
  end.

Definition replace (v : string) (df : frame) : frame :=
  map (fun c => (fst c, replace_series v (snd c))) df.

(** *** Grouping and the mean *)

Definition Qsum (l : list Q) : Q := fold_right Qplus 0%Q l.

(** The mean of the values that are not NaN; NaN when there is none. *)
Definition mean_skipna (xs : list (option Q)) : option Q :=
  match present xs with
  | [] => None
  | vs => Some (Qred (Qsum vs / inject_Z (Z.of_nat (List.length vs)))%Q)
  end.

Definition key_is (g : scalar) (k : option scalar) : bool :=
  match k with
  | Some k' => scalar_eqb k' g
  | None => false
  end.

(** The values of the rows whose key is [g]; rows with a NaN key are in no
    group. *)
Definition group_values (g : scalar) (ks : list (option scalar))
  (xs : list (option Q)) : list (option Q) :=
  map snd (filter (fun r => key_is g (fst r)) (combine ks xs)).

(** The sorted list of the distinct keys. *)
Fixpoint insert_key (k : scalar) (l : list scalar) : list scalar :=
  match l with
  | [] => [k]
  | h :: t =>
      if scalar_eqb k h then l
      else if scalar_leb k h then k :: l
      else h :: insert_key k t
  end.

Definition sort_unique (l : list scalar) : list scalar :=
  fold_right insert_key [] l.

(** df.groupby(key).mean(): one row per distinct non-NaN key, in key order;
    one column per other column of [df], holding the group means.  The mean
    of an object column raises. *)
Definition groupby_mean (key : string) (df : frame) : result table :=
  k <- get_column key df ;;
  let ks := keys k in
  let idx := sort_unique (present ks) in
  cs <- mapM (fun c =>
                match snd c with
                | Float64 xs =>
                    Ok (Str (fst c), map (fun g => mean_skipna (group_values g ks xs)) idx)
                | Object _ => Raise TypeError
                end)
             (filter (fun c => negb (String.eqb (fst c) key)) df) ;;
  Ok {| index := idx; cols := cs |}.

(** t.dropna(axis=1, how='all') *)
Definition dropna_columns (t : table) : table :=
  {| index := index t;
     cols := filter (fun c => existsb is_some (snd c)) (cols t) |}.

(** The values of the rows whose two keys are [s] and [p]. *)
Definition pair_values (s p : scalar) (ks kp : list (option scalar))
  (vs : list (option Q)) : list (option Q) :=
  map snd (filter (fun r => key_is s (fst (fst r)) && key_is p (snd (fst r)))
                  (combine (combine ks kp) vs)).

Fixpoint present_pairs {A B : Type} (l : list (option A * option B)) : list (A * B) :=
  match l with
  | [] => []
  | (Some a, Some b) :: r => (a, b) :: present_pairs r
  | _ :: r => present_pairs r
  end.

(** df.pivot_table(index=i, columns=c, values=v, aggfunc='mean') with its
    default dropna=True: the rows are grouped by the two keys (a NaN key puts
    a row in no group), each group is averaged, groups whose mean is NaN are
    dropped, and what is left is unstacked into one row per key [i] and one
    column per key [c], both in key order; a cell without a group is NaN.
    Columns left entirely NaN are dropped. *)
Definition pivot_table (df : frame) (i c v : string) : result table :=
  si <- get_column i df ;;
  sc <- get_column c df ;;
  sv <- get_column v df ;;
  match sv with
  | Object _ => Raise TypeError
  | Float64 vs =>
      let ks := keys si in
      let kp := keys sc in
      let cell := fun s p => mean_skipna (pair_values s p ks kp vs) in
      let agged := filter (fun g => is_some (cell (fst g) (snd g)))
                          (present_pairs (combine ks kp)) in
      let idx := sort_unique (map fst agged) in
      let cls := sort_unique (map snd agged) in
      Ok (dropna_columns
            {| index := idx;
               cols := map (fun p => (p, map (fun s => cell s p) idx)) cls |})
  end.

(** *** sort_index, ffill, bfill *)

(** A stable insertion sort of the keys paired with their positions. *)
Fixpoint insert_by (x : scalar * nat) (l : list (scalar * nat)) : list (scalar * nat) :=
  match l with
  | [] => [x]
  | h :: t => if scalar_leb (fst x) (fst h) then x :: l else h :: insert_by x t
  end.

Definition argsort (ks : list scalar) : list (scalar * nat) :=
  fold_right insert_by [] (combine ks (seq 0 (List.length ks))).

Definition take {A : Type} (d : A) (pos : list nat) (xs : list A) : list A :=
  map (fun i => nth i xs d) pos.

(** t.sort_index(): the rows in ascending key order. *)
Definition sort_index (t : table) : table :=
  let order := argsort (index t) in
  {| index := map fst order;
     cols := map (fun c => (fst c, take None (map snd order) (snd c))) (cols t) |}.

Fixpoint ffill_from (last : option Q) (xs : list (option Q)) : list (option Q) :=
  match xs with
  | [] => []
  | x :: r =>
      let v := match x with Some _ => x | None => last end in
      v :: ffill_from v r
  end.

Definition ffill_col (xs : list (option Q)) : list (option Q) := ffill_from None xs.

Fixpoint bfill_col (xs : list (option Q)) : list (option Q) :=
  match xs with
  | [] => []
  | x :: r =>
      let r' := bfill_col r in
      match x with
      | Some _ => x :: r'
      | None => hd None r' :: r'
      end
  end.

Definition map_cols (f : list (option Q) -> list (option Q)) (t : table) : table :=
  {| index := index t; cols := map (fun c => (fst c, f (snd c))) (cols t) |}.

Definition ffill : table -> table := map_cols ffill_col.
Definition bfill : table -> table := map_cols bfill_col.

End Pandas.

(** ** The program *)

Module Visualizer.
Import Pandas.

Section LoadData.

Variable to_float : string -> option Q.

Definition format_A (df : frame) : bool :=
  forallb (fun col => mem col (columns df)) ["SECONDS"; "PID"; "VALUE"].

(** [df[col]] as the argument of [pd.to_numeric]: with a label that names
    several columns it is a frame, which [to_numeric] refuses with a
    TypeError. *)
Definition get_series (col : string) (df : frame) : result series :=
  match get_column col df with
  | Raise ValueError => Raise TypeError
  | r => r
  end.

(** The loop [for col in sensor_cols: df[col] = pd.to_numeric(df[col], errors='coerce')]. *)
Fixpoint coerce_columns (sensor_cols : list string) (df : frame) : result frame :=
  match sensor_cols with
  | [] => Ok df
  | col :: rest =>
      s <- get_series col df ;;
      coerce_columns rest (set_column col (to_numeric to_float s) df)
  end.

(** The body of [load_data] once the file is read and the labels are
    stripped (the two format branches).  [None] is Python's [None]. *)
Definition load_frame (df : frame) : result (option table) :=
  if format_A df then
    df_pivot_load <- pivot_table df "SECONDS" "PID" "VALUE" ;;
    let df_pivot_load := sort_index df_pivot_load in
    let df_pivot_load := bfill (ffill df_pivot_load) in
    Ok (Some df_pivot_load)
  else if mem "time(ms)" (columns df) then
    t <- get_column "time(ms)" df ;;
    seconds <- truediv t 1000%Q ;;
    let df := set_column "SECONDS" seconds df in
    let df := drop_column "time(ms)" df in
    let df := replace "-" df in
    let sensor_cols := filter (fun c => negb (String.eqb c "SECONDS")) (columns df) in
    df <- coerce_columns sensor_cols df ;;
    g <- groupby_mean "SECONDS" df ;;
    let df_processed := sort_index g in
    let df_processed := dropna_columns df_processed in
    let df_processed := bfill (ffill df_processed) in
    Ok (Some df_processed)
  else Ok None.

Definition load_data (file : string) : result (option table) :=
  df <- read_csv to_float file ;;
  load_frame (strip_columns df).

End LoadData.

(** *** State helpers and the main script

    [st.session_state] holds the selection dictionary (absent before the
    first successful load), the check-box widget keys [chk_<sensor>] and the
    key [graph_active].  A Python dict is an association list with distinct
    keys in insertion order. *)

Definition dict : Type := list (scalar * bool).

Definition dict_mem (k : scalar) (d : dict) : bool :=
  existsb (fun e => scalar_eqb (fst e) k) d.

Definition dict_get (k : scalar) (d : dict) : result bool :=
  match find (fun e => scalar_eqb (fst e) k) d with
  | Some e => Ok (snd e)
  | None => Raise KeyError
  end.

Fixpoint dict_set (k : scalar) (v : bool) (d : dict) : dict :=
  match d with
  | [] => [(k, v)]
  | e :: r => if scalar_eqb (fst e) k then (fst e, v) :: r else e :: dict_set k v r
  end.

Definition set_default (k : scalar) (v : bool) (d : dict) : dict :=
  if dict_mem k d then d else dict_set k v d.

Record session_state : Type := {
  sensor_states_dict : option dict;
  chk : dict;
  graph_active : bool
}.

(** What the widgets return in one run of the script. *)
Record widgets : Type := {
  normalize : bool;
  split_graphs : bool;
  trigger_plot : bool;
  search_text : string
}.

(** The normalize branch computes on float64 values, with the infinities
    and NaN.  The finite values are exact rationals: a result beyond the
    largest float64 is an infinity, and rounding is not modelled. *)
Inductive float64 : Type :=
| Finite (q : Q)
| PosInf
| NegInf
| NaN.

(** The data handed to Plotly: the row keys and the selected columns. *)
Record plot_table : Type := {
  plot_index : list scalar;
  plot_cols : list (scalar * list float64)
}.

(** What the script renders in the main area. *)
Inductive element : Type :=
| st_error (msg : string)
| st_info (msg : string)
| st_warning (msg : string)
| st_subheader (msg : string)
| st_plotly_chart (facet_rows : bool) (plot_data : plot_table)
| st_dataframe_describe (plot_data : plot_table).

Definition format_error : string :=
  "Error: The CSV file format is not recognized. Expected columns: (SECONDS; PID; VALUE) OR (time(ms); ...sensors).".

Definition get_selected_list (st : session_state) : result (list scalar) :=
  match sensor_states_dict st with
  | Some d => Ok (map fst (filter snd d))
  | None => Raise KeyError
  end.

(** m.lower(): labels that are numbers have no such method. *)
Definition label_lower (m : scalar) : result string :=
  match m with
  | Str s => Ok (lower s)
  | Flt _ => Raise AttributeError
  end.

Fixpoint filter_matches (search : string) (metrics : list scalar) : result (list scalar) :=
  match metrics with
  | [] => Ok []
  | m :: r =>
      l <- label_lower m ;;
      ms <- filter_matches search r ;;
      Ok (if contains l (lower search) then m :: ms else ms)
  end.

(** The cells of a table as float64 values: a table read from a file holds
    finite values and NaN. *)
Definition of_cell (x : option Q) : float64 :=
  match x with
  | Some q => Finite q
  | None => NaN
  end.

Definition max_float : Q := inject_Z (2 ^ 1024 - 2 ^ 971).

Definition overflow (q : Q) : float64 :=
  if Qle_bool (Qabs q) max_float then Finite (Qred q)
  else if Qle_bool 0 q then PosInf else NegInf.

Definition fneg (a : float64) : float64 :=
  match a with
  | Finite q => Finite (Qred (- q))
  | PosInf => NegInf
  | NegInf => PosInf
  | NaN => NaN
  end.

(** a - b *)
Definition fsub (a b : float64) : float64 :=
  match a, b with
  | NaN, _ | _, NaN => NaN
  | Finite x, Finite y => overflow (x - y)
  | PosInf, PosInf | NegInf, NegInf => NaN
  | PosInf, _ | _, NegInf => PosInf
  | NegInf, _ | _, PosInf => NegInf
  end.

(** a / b.  The sign of a zero is not modelled: a finite value over an
    infinity is zero, and a value over zero takes the sign of the value. *)
Definition fdiv (a b : float64) : float64 :=
  match a, b with
  | NaN, _ | _, NaN => NaN
  | Finite x, Finite y =>
      if Qeq_bool y 0 then
        if Qeq_bool x 0 then NaN
        else if Qle_bool 0 x then PosInf else NegInf
      else overflow (x / y)
  | Finite _, _ => Finite 0
  | _, Finite y => if Qle_bool 0 y then a else fneg a
  | _, _ => NaN
  end.

Definition fle (a b : float64) : bool :=
  match a, b with
  | NaN, _ | _, NaN => false
  | NegInf, _ | _, PosInf => true
  | Finite x, Finite y => Qle_bool x y
  | _, _ => false
  end.

Definition fmin (a b : float64) : float64 := if fle a b then a else b.
Definition fmax (a b : float64) : float64 := if fle a b then b else a.

Definition is_nan (a : float64) : bool :=
  match a with
  | NaN => true
  | _ => false
  end.

(** A column reduced by [f] over its values that are not NaN; NaN when
    there is none. *)
Definition reduce (f : float64 -> float64 -> float64) (xs : list float64) : float64 :=
  match filter (fun x => negb (is_nan x)) xs with
  | [] => NaN
  | v :: vs => fold_left f vs v
  end.

Definition col_min : list float64 -> float64 := reduce fmin.
Definition col_max : list float64 -> float64 := reduce fmax.

(** denom.replace(0, 1) *)
Definition replace_zero (d : float64) : float64 :=
  match d with
  | Finite x => if Qeq_bool x 0 then Finite 1 else d
  | _ => d
  end.

(** The normalize branch:
    [denom = plot_data.max() - plot_data.min()];
    [plot_data = (plot_data - plot_data.min()) / denom.replace(0, 1)]. *)
Definition normalize_col (xs : list float64) : list float64 :=
  let denom := fsub (col_max xs) (col_min xs) in
  map (fun x => fdiv (fsub x (col_min xs)) (replace_zero denom)) xs.

Definition normalize_table (t : plot_table) : plot_table :=
  {| plot_index := plot_index t;
     plot_cols := map (fun c => (fst c, normalize_col (snd c))) (plot_cols t) |}.

(** df_pivot[valid_metrics] *)
Definition select_columns (ms : list scalar) (t : table) : plot_table :=
  {| plot_index := index t;
     plot_cols :=
       flat_map (fun m => map (fun c => (fst c, map of_cell (snd c)))
                              (filter (fun c => scalar_eqb (fst c) m) (cols t))) ms |}.

Definition plot_has (name : string) (t : plot_table) : bool :=
  existsb (fun c => scalar_eqb (fst c) (Str name)) (plot_cols t).

(** [plot_data.reset_index().melt(id_vars='SECONDS', var_name='Sensor',
    value_name='Value')] as far as it can fail: the index, which is named
    SECONDS, cannot be inserted beside a column of that name, and the name
    of the value column cannot be the name of a column. *)
Definition melt_check (t : plot_table) : result unit :=
  if plot_has "SECONDS" t then Raise ValueError
  else if plot_has "Value" t then Raise ValueError
  else Ok tt.

Definition has_column (t : table) (m : scalar) : bool :=
  existsb (fun c => scalar_eqb (fst c) m) (cols t).

(** The loop over the listed sensors that gives a check box without a
    widget key the value of the dictionary. *)
Fixpoint sync_checkboxes (d : dict) (filtered_options : list scalar) (c : dict)
  : result dict :=
  match filtered_options with
  | [] => Ok c
  | sensor :: r =>
      if dict_mem sensor c then sync_checkboxes d r c
      else v <- dict_get sensor d ;; sync_checkboxes d r (dict_set sensor v c)
  end.

Section Main.

Variable to_float : string -> option Q.

(** The statements that build and show the figure and the statistics, from
    [px.line] to [st.dataframe], for the switch Split Graphs and the data
    to plot.  What they draw is not modelled, only that they return or
    raise. *)
Variable plotly : bool -> plot_table -> result unit.

(** One run of the script from [if uploaded_file is not None:] on.  The
    side bar is not rendered; the leading emoji of the two info messages is
    left out. *)
Definition main (st : session_state) (w : widgets)
  (uploaded_file : option string)
  : result (session_state * list element) :=
  match uploaded_file with
  | None => Ok (st, [st_info "Upload a CSV file to get started."])
  | Some file =>
      df_pivot <- load_data to_float file ;;
      match df_pivot with
      | None => Ok (st, [st_error format_error])
      | Some df_pivot =>
          let all_metrics := map fst (cols df_pivot) in
          let st :=
            match sensor_states_dict st with
            | None =>
                {| sensor_states_dict :=
                     Some (fold_left (fun d sensor => dict_set sensor false d) all_metrics []);
                   chk := fold_left (fun c sensor => set_default sensor false c) all_metrics (chk st);
                   graph_active := graph_active st |}
            | Some d =>
                {| sensor_states_dict :=
                     Some (fold_left (fun d sensor => set_default sensor false d) all_metrics d);
                   chk := chk st;
                   graph_active := graph_active st |}
            end in
          filtered_options <-
            (if String.eqb (search_text w) EmptyString then Ok all_metrics
             else filter_matches (search_text w) all_metrics) ;;
          d <- match sensor_states_dict st with
               | Some d => Ok d
               | None => Raise KeyError
               end ;;
          chk' <- sync_checkboxes d filtered_options (chk st) ;;
          let st := {| sensor_states_dict := sensor_states_dict st;
                       chk := chk';
                       graph_active := graph_active st |} in
          if trigger_plot w || graph_active st then
            let st := {| sensor_states_dict := sensor_states_dict st;
                         chk := chk st;
                         graph_active := true |} in
            metrics_to_plot <- get_selected_list st ;;
            match metrics_to_plot with
            | [] => Ok (st, [st_info "Select sensors in the sidebar and click 'Update Graph'."])
            | _ =>
                let valid_metrics := filter (has_column df_pivot) metrics_to_plot in
                match valid_metrics with
                | [] => Ok (st, [st_subheader "Timeline";
                                 st_warning "Selected sensors not found in data."])
                | _ =>
                    let plot_data := select_columns valid_metrics df_pivot in
                    let plot_data :=
                      if normalize w then normalize_table plot_data
                      else plot_data in
                    _ <- (if split_graphs w then melt_check plot_data else Ok tt) ;;
                    _ <- plotly (split_graphs w) plot_data ;;
                    Ok (st, [st_subheader "Timeline";
                             st_plotly_chart (split_graphs w) plot_data;
                             st_dataframe_describe plot_data])
                end
            end
          else Ok (st, [])
      end
  end.

End Main.

(** *** The callbacks of the check boxes and buttons

    Each takes the session state and returns it updated.  The value of the
    search box, which the script keeps under its own widget key, is an
    argument. *)

(** toggle_sensor(sensor_name): the dictionary takes the value of the check
    box, if the check box has a widget key. *)
Definition toggle_sensor (sensor_name : scalar) (st : session_state)
  : result session_state :=
  if dict_mem sensor_name (chk st) then
    v <- dict_get sensor_name (chk st) ;;
    d <- match sensor_states_dict st with
         | Some d => Ok d
         | None => Raise KeyError
         end ;;
    Ok {| sensor_states_dict := Some (dict_set sensor_name v d);
          chk := chk st;
          graph_active := graph_active st |}
  else Ok st.

(** [k for k in all_keys if search_txt in k.lower()] *)
Fixpoint matching_keys (search_txt : string) (all_keys : list scalar)
  : result (list scalar) :=
  match all_keys with
  | [] => Ok []
  | k :: r =>
      l <- label_lower k ;;
      ms <- matching_keys search_txt r ;;
      Ok (if contains l search_txt then k :: ms else ms)
  end.

(** The loop [for m in ms: dictionary[m] = v; session_state[chk_m] = v] on
    the dictionary [d] and the widget keys [c]. *)
Fixpoint assign_all (v : bool) (ms : list scalar) (d c : dict) : dict * dict :=
  match ms with
  | [] => (d, c)
  | m :: r => assign_all v r (dict_set m v d) (dict_set m v c)
  end.

Definition select_visible_matches (search_box : string) (st : session_state)
  : result session_state :=
  let search_txt := lower search_box in
  d <- match sensor_states_dict st with
       | Some d => Ok d
       | None => Raise KeyError
       end ;;
  let all_keys := map fst d in
  matches <- (if String.eqb search_txt EmptyString then Ok all_keys
              else matching_keys search_txt all_keys) ;;
  let dc := assign_all true matches d (chk st) in
  Ok {| sensor_states_dict := Some (fst dc);
        chk := snd dc;
        graph_active := graph_active st |}.

Definition deselect_all (st : session_state) : result session_state :=
  d <- match sensor_states_dict st with
       | Some d => Ok d
       | None => Raise KeyError
       end ;;
  let dc := assign_all false (map fst d) d (chk st) in
  Ok {| sensor_states_dict := Some (fst dc);
        chk := snd dc;
        graph_active := graph_active st |}.

(** clear_search(): the new value of the search box. *)
Definition clear_search (search_box : string) : string := EmptyString.

(** a.text.split("=")[-1], the text of a facet annotation. *)
Fixpoint after_last_eq (s : string) : string :=
  match s with
  | EmptyString => EmptyString
  | String c r =>
      if contains r "=" then after_last_eq r
      else if Ascii.eqb c "="%char then r
      else s
  end.

End Visualizer.

(** * Vocabulary of the properties *)

Import Pandas Visualizer.

(** ** Tables *)

Definition scalar_le (a b : scalar) : Prop := scalar_leb a b = true.

Definition filled (xs : list (option Q)) : Prop := Forall (fun x => x <> None) xs.

(** Every column has one cell per row key, and none is missing. *)
Definition well_filled (t : table) : Prop :=
  Forall (fun col => List.length (snd col) = List.length (index t)
                     /\ filled (snd col)) (cols t).



(** Every column lists, row by row, the value [F key label]. *)
Definition coherent (F : scalar -> scalar -> option Q) (t : table) : Prop :=
  forall c, In c (cols t) -> snd c = map (fun k => F k (fst c)) (index t).

(** The reading of "filled by forward-fill then backward-fill": a cell takes
    the last value at or before its row and, when there is none, the first
    value after it. *)
Fixpoint last_value_before (xs : list (option Q)) (i : nat) : option Q :=
  match xs with
  | [] => None
  | x :: r =>
      match i with
      | 0 => x
      | S j =>
          match last_value_before r j with
          | Some v => Some v
          | None => x
          end
      end
  end.

Fixpoint first_value_from (xs : list (option Q)) (i : nat) : option Q :=
  match xs with
  | [] => None
  | x :: r =>
      match i with
      | 0 =>
          match x with
          | Some v => Some v
          | None => first_value_from r 0
          end
      | S j => first_value_from r j
      end
  end.

Definition filled_value (xs : list (option Q)) (i : nat) : option Q :=
  match last_value_before xs i with
  | Some v => Some v
  | None => first_value_from xs i
  end.

(** ** Frames *)

Definition series_length (s : series) : nat :=
  match s with
  | Float64 xs => List.length xs
  | Object xs => List.length xs
  end.

(** The cells at the positions where the mask is true. *)
Definition select {A : Type} (mask : list bool) (xs : list A) : list A :=
  map snd (filter fst (combine mask xs)).

Definition series_select (mask : list bool) (s : series) : series :=
  match s with
  | Float64 xs => Float64 (select mask xs)
  | Object xs => Object (select mask xs)
  end.

(** The frame with only the rows where the mask is true. *)
Definition keep_rows (mask : list bool) (df : frame) : frame :=
  map (fun c => (fst c, series_select mask (snd c))) df.

(** The wide-format frame of [load_frame] after the SECONDS column is set,
    [time(ms)] is dropped and the dashes are replaced, and the labels its
    loop runs over. *)
Definition prepared (seconds : series) (df : frame) : frame :=
  replace "-" (drop_column "time(ms)" (set_column "SECONDS" seconds df)).

Definition sensor_columns (df : frame) : list string :=
  filter (fun c => negb (String.eqb c "SECONDS")) (columns df).

Section Coercion.

Variable to_float : string -> option Q.

(** What the loop of [load_frame] computes when it does not raise: the
    columns named in [l] made numeric. *)
Definition coerced (l : list string) (df : frame) : frame :=
  map (fun c => if mem (fst c) l then (fst c, to_numeric to_float (snd c)) else c) df.


End Coercion.


(** ** The selection dictionary *)

(** No two entries have the same key: what a Python dict is. *)
Fixpoint distinct_keys (d : dict) : bool :=
  match d with
  | [] => true
  | e :: r => negb (dict_mem (fst e) r) && distinct_keys r
  end.

(** The label is a string, so it has a [lower] method. *)
Definition is_str (k : scalar) : bool :=
  match k with
  | Str _ => true
  | Flt _ => false
  end.

(** The label is ASCII text. *)
Definition ascii_label (k : scalar) : bool :=
  match k with
  | Str n => is_ascii n
  | Flt _ => true
  end.

(** [search_txt in k.lower()] for a label that is a string. *)
Definition label_matches (search_txt : string) (k : scalar) : bool :=
  match k with
  | Str n => contains (lower n) search_txt
  | Flt _ => false
  end.

(** The keys are strictly increasing. *)
Definition scalar_lt (a b : scalar) : Prop :=
  scalar_leb a b = true /\ scalar_eqb a b = false.

(** ** Floats *)

Definition is_number (a : float64) : Prop := a <> NaN.

(** ** One run of the script, in stages *)

(** The selection dictionary after the initialization of [main]: built
    anew, all false, when the state has none; completed with the new
    columns, set to false, when it has one. *)
Definition init_dict (st : session_state) (all_metrics : list scalar) : dict :=
  match sensor_states_dict st with
  | None => fold_left (fun d sensor => dict_set sensor false d) all_metrics []
  | Some d => fold_left (fun d sensor => set_default sensor false d) all_metrics d
  end.

(** The data [main] hands to the plotting statements. *)
Definition plot_data_of (w : widgets) (valid_metrics : list scalar) (df_pivot : table)
  : plot_table :=
  let plot_data := select_columns valid_metrics df_pivot in
  if normalize w then normalize_table plot_data else plot_data.

(** What [main] renders for the table [df_pivot] and the dictionary [d],
    [active] being [trigger_plot or 'graph_active' in st.session_state]. *)
Definition rendered (plotly : bool -> plot_table -> result unit)
  (w : widgets) (active : bool) (df_pivot : table) (d : dict)
  : result (list element) :=
  if active then
    match map fst (filter snd d) with
    | [] => Ok [st_info "Select sensors in the sidebar and click 'Update Graph'."]
    | metrics_to_plot =>
        match filter (has_column df_pivot) metrics_to_plot with
        | [] => Ok [st_subheader "Timeline";
                    st_warning "Selected sensors not found in data."]
        | valid_metrics =>
            let plot_data := plot_data_of w valid_metrics df_pivot in
            _ <- (if split_graphs w then melt_check plot_data else Ok tt) ;;
            _ <- plotly (split_graphs w) plot_data ;;
            Ok [st_subheader "Timeline";
                st_plotly_chart (split_graphs w) plot_data;
                st_dataframe_describe plot_data]
        end
    end
  else Ok [].

(** ** Text files

    The text of a file whose lines are given field by field: the fields of
    a line are joined by the separator and every line ends with LF. *)

Fixpoint join_fields (fields : list string) : string :=
  match fields with
  | [] => EmptyString
  | [f] => f
  | f :: fs => (f ++ String delimiter (join_fields fs))%string
  end.

(** A line of a text file: blanks only, or fields. *)
Inductive line : Type :=
| Blank (blanks : string)
| Fields (fields : list string).

Definition line_text (l : line) : string :=
  match l with
  | Blank blanks => blanks
  | Fields fields => join_fields fields
  end.

Fixpoint file_text (lines : list line) : string :=
  match lines with
  | [] => EmptyString
  | l :: rest => (line_text l ++ String LF (file_text rest))%string
  end.

(** The text of a file without blank lines. *)
Definition csv_text (records : list (list string)) : string :=
  file_text (map Fields records).


(** Every CR of the file is followed by LF: the lines end with LF or with
    CR LF. *)
Fixpoint no_lone_CR (s : string) : bool :=
  match s with
  | EmptyString => true
  | String c r =>
      (if Ascii.eqb c CR
       then match r with
            | String d _ => Ascii.eqb d LF
            | EmptyString => false
            end
       else true)
      && no_lone_CR r
  end.





(** ** Example files, with the frames [read_csv] makes of them and the
    tables [load_data] returns *)

Definition long_example : string :=
  csv_text
    [["SECONDS"; "PID"; "VALUE"];
     ["0"; "RPM"; "800"];
     ["0"; "RPM"; "820"];
     ["1"; "RPM"; "900"]].



Definition wide_example : string :=
  csv_text
    [["time(ms)"; "Speed"; "RPM"];
     ["1000"; "-"; "800"];
     ["2000"; "45"; "820"]].

Definition wide_frame : frame :=
  [("time(ms)", Float64 [Some 1000%Q; Some 2000%Q]);
   ("Speed", Object [Some "-"; Some "45"]);
   ("RPM", Float64 [Some 800%Q; Some 820%Q])].

Definition wide_table : table :=
  {| index := [Flt 1; Flt 2];
     cols := [(Str "Speed", [Some 45%Q; Some 45%Q]);
              (Str "RPM", [Some 800%Q; Some 820%Q])] |}.

(** Rows out of order, gaps, and a column of words. *)
Definition gap_example : string :=
  csv_text
    [["time(ms)"; "Speed"; "RPM"; "Fuel"];
     ["2000"; "45"; EmptyString; "Closed Loop"];
     ["1000"; "-"; "800"; "-"];
     ["3000"; EmptyString; EmptyString; "Open Loop"]].


Definition gap_table : table :=
  {| index := [Flt 1; Flt 2; Flt 3];
     cols := [(Str "Speed", [Some 45%Q; Some 45%Q; Some 45%Q]);
              (Str "RPM", [Some 800%Q; Some 800%Q; Some 800%Q])] |}.

(** A word in the VALUE column of a long-format file. *)
Definition text_value_example : string :=
  csv_text
    [["SECONDS"; "PID"; "VALUE"];
     ["0"; "RPM"; "800"];
     ["1"; "FuelStatus"; "Closed Loop"]].




(** A byte that is not UTF-8, and a quoted field that is not closed. *)
Definition undecodable_example : string :=
  csv_text [["time(ms)"; "Speed"]; ["1000"; String (ascii_of_nat 255) EmptyString]].

Definition open_quote_example : string :=
  csv_text [["time(ms)"; "Speed"]; ["1000"; String quotechar "40"]].



(** A header name used twice. *)
Definition repeated_header_example : string :=
  csv_text
    [["time(ms)"; "Speed"; "Speed"];
     ["1000"; "40"; "41"]].

Definition repeated_header_frame : frame :=
  [("time(ms)", Float64 [Some 1000%Q]);
   ("Speed", Float64 [Some 40%Q]);
   ("Speed.1", Float64 [Some 41%Q])].

Definition repeated_header_table : table :=
  {| index := [Flt 1];
     cols := [(Str "Speed", [Some 40%Q]); (Str "Speed.1", [Some 41%Q])] |}.

(** The file [wide_example] with blanks around its header names, one of
    them a no-break space (U+00A0). *)
Definition no_break_space : string :=
  String (ascii_of_nat 194) (String (ascii_of_nat 160) EmptyString).

Definition padded_header_example : string :=
  csv_text
    [[" time(ms)"; ("Speed" ++ no_break_space)%string; " RPM "];
     ["1000"; "-"; "800"];
     ["2000"; "45"; "820"]].

(** A gap between two values, and a gap at the top. *)
Definition forward_fill_example : string :=
  csv_text
    [["time(ms)"; "Speed"; "RPM"];
     ["1000"; "40"; "-"];
     ["2000"; "-"; "800"];
     ["3000"; "50"; "820"]].

Definition forward_fill_frame : frame :=
  [("time(ms)", Float64 [Some 1000%Q; Some 2000%Q; Some 3000%Q]);
   ("Speed", Object [Some "40"; Some "-"; Some "50"]);
   ("RPM", Object [Some "-"; Some "800"; Some "820"])].

Definition forward_fill_table : table :=
  {| index := [Flt 1; Flt 2; Flt 3];
     cols := [(Str "Speed", [Some 40%Q; Some 40%Q; Some 50%Q]);
              (Str "RPM", [Some 800%Q; Some 800%Q; Some 820%Q])] |}.

(** A row without a time. *)
Definition missing_time_example : string :=
  csv_text
    [["time(ms)"; "Speed"];
     ["1000"; "40"];
     [EmptyString; "99"];
     ["2000"; "45"]].

Definition missing_time_frame : frame :=
  [("time(ms)", Float64 [Some 1000%Q; None; Some 2000%Q]);
   ("Speed", Float64 [Some 40%Q; Some 99%Q; Some 45%Q])].

(** The labels of both formats at once. *)
Definition both_markers_example : string :=
  csv_text
    [["time(ms)"; "SECONDS"; "PID"; "VALUE"];
     ["5000"; "0"; "RPM"; "800"];
     ["6000"; "1"; "RPM"; "900"]].

Definition both_markers_frame : frame :=
  [("time(ms)", Float64 [Some 5000%Q; Some 6000%Q]);
   ("SECONDS", Float64 [Some 0%Q; Some 1%Q]);
   ("PID", Object [Some "RPM"; Some "RPM"]);
   ("VALUE", Float64 [Some 800%Q; Some 900%Q])].

(** The labels of neither format. *)
Definition unrecognized_example : string :=
  csv_text
    [["timestamp"; "Speed"];
     ["1000"; "40"]].

Definition unrecognized_frame : frame :=
  [("timestamp", Float64 [Some 1000%Q]);
   ("Speed", Float64 [Some 40%Q])].

(** A long-format file whose PID column is numeric: the labels of the
    table are numbers. *)
Definition numeric_pid_example : string :=
  csv_text
    [["SECONDS"; "PID"; "VALUE"];
     ["0"; "12"; "800"];
     ["1"; "12"; "900"]].

Definition numeric_pid_table : table :=
  {| index := [Flt 0; Flt 1];
     cols := [(Flt 12, [Some 800%Q; Some 900%Q])] |}.

(** A long-format file with a fourth column. *)
Definition units_example : string :=
  csv_text
    [["SECONDS"; "PID"; "VALUE"; "UNITS"];
     ["0"; "RPM"; "800"; "rpm"];
     ["1"; "RPM"; "900"; "rpm"]].

Definition units_frame : frame :=
  [("SECONDS", Float64 [Some 0%Q; Some 1%Q]);
   ("PID", Object [Some "RPM"; Some "RPM"]);
   ("VALUE", Float64 [Some 800%Q; Some 900%Q]);
   ("UNITS", Object [Some "rpm"; Some "rpm"])].



(** ** Example states and widgets *)

Definition example_dict : dict :=
  [(Str "Speed", true); (Str "RPM", false); (Str "Fuel", true)].

Definition example_state : session_state :=
  {| sensor_states_dict := Some example_dict;
     chk := [(Str "Speed", false)];
     graph_active := false |}.

Definition fresh_state : session_state :=
  {| sensor_states_dict := None; chk := []; graph_active := false |}.

Definition example_widgets : widgets :=
  {| normalize := true;
     split_graphs := false;
     trigger_plot := true;
     search_text := EmptyString |}.

Definition search_widgets : widgets :=
  {| normalize := false;
     split_graphs := false;
     trigger_plot := false;
     search_text := "rp" |}.

(** [example_state] after one run of the script on [gap_example]. *)
Definition example_state_after : session_state :=
  {| sensor_states_dict := Some example_dict;
     chk := [(Str "Speed", false); (Str "RPM", false)];
     graph_active := true |}.

Definition example_plot : plot_table :=
  {| plot_index := [Flt 1; Flt 2; Flt 3];
     plot_cols := [(Str "Speed", [Finite 0; Finite 0; Finite 0])] |}.

(** Plotting statements that never raise, for the examples. *)
Definition no_plot_error (facet_rows : bool) (plot_data : plot_table) : result unit :=
  Ok tt.

(** * Properties *)

(** ** Reading: the tokenizer on plain lines *)












Lemma tokenize_bytes_cons st c r :
  tokenize_bytes st (String c r)
  = step c (fun st' => tokenize_bytes st' r) (blank_line r) st.
Proof. reflexivity. Qed.























(** ** Reading: the names of the columns *)

Lemma set_nth_length {A : Type} i (a : A) l : List.length (set_nth i a l) = List.length l.
Proof.
  revert i. induction l as [|h l IH]; intros [|i]; simpl; try reflexivity.
  now rewrite IH.
Qed.

Lemma set_nth_same {A : Type} (d : A) l : forall i, set_nth i (nth i l d) l = l.
Proof.
  induction l as [|h l IH]; intros [|i]; simpl; try reflexivity.
  now rewrite IH.
Qed.

Lemma dedup_names_length fuel order : forall h counts,
  List.length (dedup_names fuel order h counts) = List.length h.
Proof.
  induction order as [|i order IH]; intros h counts; [reflexivity|].
  cbn [dedup_names].
  destruct (rename fuel h (nth i h EmptyString) (nth i h EmptyString)
              (count_of (nth i h EmptyString) counts) counts) as [[col' cur] counts'].
  now rewrite IH, set_nth_length.
Qed.

Lemma header_names_length header :
  List.length (header_names header) = List.length header.
Proof.
  unfold header_names. rewrite dedup_names_length, length_map, length_combine, length_seq.
  apply Nat.min_id.
Qed.

Lemma count_of_fresh col counts :
  (forall e, In e counts -> fst e <> col) -> count_of col counts = 0.
Proof.
  intros H. unfold count_of.
  destruct (find (fun e => String.eqb (fst e) col) counts) as [e|] eqn:F; [|reflexivity].
  apply find_some in F. destruct F as [Hin He]. apply String.eqb_eq in He.
  now apply H in Hin.
Qed.

Lemma rename_fresh fuel h col counts :
  rename fuel h col col 0 counts = (col, 0, counts).
Proof. now destruct fuel. Qed.

Lemma In_firstn_nth {A : Type} (d : A) x : forall l k,
  In x (firstn k l) -> exists j, j < k /\ j < List.length l /\ nth j l d = x.
Proof.
  induction l as [|h l IH]; intros [|k] H; simpl in H; try contradiction.
  destruct H as [<-|H].
  - exists 0. simpl. repeat split; lia.
  - destruct (IH k H) as [j [Hj [Hl E]]]. exists (S j). simpl. repeat split; (lia || assumption).
Qed.

Lemma firstn_S_In {A : Type} (d : A) x : forall l k,
  k < List.length l -> In x (firstn k l) \/ x = nth k l d -> In x (firstn (S k) l).
Proof.
  induction l as [|h l IH]; intros [|k] Hk H; simpl in *; try lia.
  - destruct H as [H|H]; [contradiction|]. subst x. now left.
  - destruct H as [[H|H]|H]; [now left| |].
    + right. apply IH; [lia|now left].
    + right. apply IH; [lia|now right].
Qed.

Lemma dedup_names_distinct fuel header :
  NoDup header ->
  forall m k counts,
    k + m = List.length header ->
    (forall e, In e counts -> In (fst e) (firstn k header)) ->
    dedup_names fuel (seq k m) header counts = header.
Proof.
  intros ND. induction m as [|m IH]; intros k counts Hk Hc; [reflexivity|].
  cbn [seq dedup_names].
  assert (F : count_of (nth k header EmptyString) counts = 0).
  { apply count_of_fresh. intros e He E. apply Hc in He.
    apply (In_firstn_nth EmptyString) in He. destruct He as [j [Hj [Hl Ej]]].
    rewrite E in Ej.
    apply (proj1 (NoDup_nth header EmptyString) ND) in Ej; lia. }
  rewrite F, rename_fresh, set_nth_same. apply IH; [lia|].
  intros e [<-|He]; cbn [fst].
  - apply (firstn_S_In EmptyString); [lia|now right].
  - apply (firstn_S_In EmptyString); [lia|]. left. now apply Hc.
Qed.

Lemma named_header header : forall k,
  ~ In EmptyString header ->
  map (fun c : nat * string =>
         if String.eqb (snd c) EmptyString
         then ("Unnamed: " ++ str_of_nat (fst c))%string else snd c)
      (combine (seq k (List.length header)) header) = header.
Proof.
  induction header as [|h l IH]; intros k H; [reflexivity|].
  cbn [List.length seq combine map snd fst].
  destruct (String.eqb_spec h EmptyString) as [->|_]; [exfalso; apply H; now left|].
  f_equal. apply IH. intros Hin. apply H. now right.
Qed.

Lemma filter_all {A : Type} (f : A -> bool) l :
  (forall x, In x l -> f x = true) -> filter f l = l.
Proof.
  induction l as [|a l IH]; intros H; simpl; [reflexivity|].
  rewrite (H a) by now left. f_equal. apply IH. intros x Hx. apply H. now right.
Qed.

Lemma filter_none {A : Type} (f : A -> bool) l :
  (forall x, In x l -> f x = false) -> filter f l = [].
Proof.
  induction l as [|a l IH]; intros H; simpl; [reflexivity|].
  rewrite (H a) by now left. apply IH. intros x Hx. apply H. now right.
Qed.

(** Distinct names, none of them empty, are kept as they are. *)
Lemma header_names_distinct header :
  NoDup header -> ~ In EmptyString header -> header_names header = header.
Proof.
  intros ND NE. unfold header_names. rewrite named_header by assumption.
  assert (N : forall i, In i (seq 0 (List.length header)) ->
                        String.eqb (nth i header EmptyString) EmptyString = false).
  { intros i Hi. apply in_seq in Hi. apply String.eqb_neq. intros E.
    apply NE. rewrite <- E. apply nth_In. lia. }
  rewrite (filter_all _ (seq 0 (List.length header)))
    by (intros i Hi; now rewrite (N i Hi)).
  rewrite (filter_none _ (seq 0 (List.length header))) by exact N.
  rewrite app_nil_r. apply dedup_names_distinct; [assumption|lia|].
  intros e [].
Qed.

(** ** Reading: which records are kept *)




Section Properties.

Variable to_float : string -> option Q.

Lemma infer_dtype_length cells :
  series_length (infer_dtype to_float cells) = List.length cells.
Proof.
  unfold infer_dtype. destruct (Nat.eqb_spec (List.length cells) 0) as [E|_];
    [now rewrite E|].
  repeat match goal with |- context [if ?b then _ else _] => destruct b end;
    cbn [series_length]; now rewrite length_map.
Qed.

Lemma snd_combine_seq {A : Type} (l : list A) : forall k,
  map snd (combine (seq k (List.length l)) l) = l.
Proof.
  induction l as [|a l IH]; intros k; simpl; [reflexivity|]. now rewrite IH.
Qed.

Lemma read_records_columns header rs :
  exists df, read_records to_float (header :: rs) = Ok df
             /\ columns df = header_names header
             /\ Forall (fun c => series_length (snd c)
                                 = List.length (end_lines 1 (List.length header) rs)) df.
Proof.
  eexists. split; [reflexivity|]. split.
  - unfold columns. rewrite map_map. cbn [fst].
    rewrite <- (header_names_length header) at 1.
    change (fun x : nat * string => snd x) with (@snd nat string).
    apply snd_combine_seq.
  - apply Forall_forall. intros c Hc. apply in_map_iff in Hc.
    destruct Hc as [[j name] [<- _]]. cbn [snd fst].
    now rewrite infer_dtype_length, !length_map.
Qed.

Lemma read_csv_records file records :
  tokenize file = Ok records ->
  read_csv to_float file = read_records to_float records.
Proof. intros H. unfold read_csv. now rewrite H. Qed.


(** C9.  When the three long-format labels are present, the frame is treated
    as long format, also when the label [time(ms)] is present too. *)
Theorem long_format_checked_first file df :
  read_csv to_float file = Ok df ->
  mem "SECONDS" (columns (strip_columns df)) = true ->
  mem "PID" (columns (strip_columns df)) = true ->
  mem "VALUE" (columns (strip_columns df)) = true ->
  mem "time(ms)" (columns (strip_columns df)) = true ->
  load_data to_float file
  = (t <- pivot_table (strip_columns df) "SECONDS" "PID" "VALUE" ;;
     Ok (Some (bfill (ffill (sort_index t))))).
Proof.
  intros E Hs Hp Hv _. unfold load_data. rewrite E. cbn [bind].
  unfold load_frame, format_A. cbn [forallb]. rewrite Hs, Hp, Hv. reflexivity.
Qed.

(** C8 (as amended).  A file whose lines end with LF or CR LF, that
    [read_csv] reads and whose labels, once stripped, have neither shape
    makes [load_data] return [None]; the script then renders the format
    error, which names both shapes, and returns the session state it was
    given. *)
Theorem unrecognized_format_reported file df :
  no_lone_CR file = true ->
  read_csv to_float file = Ok df ->
  format_A (strip_columns df) = false ->
  mem "time(ms)" (columns (strip_columns df)) = false ->
  load_data to_float file = Ok None
  /\ (forall plotly st w,
        main to_float plotly st w (Some file) = Ok (st, [st_error format_error]))
  /\ contains format_error "(SECONDS; PID; VALUE)" = true
  /\ contains format_error "(time(ms); ...sensors)" = true.
Proof.
  intros _ E Ha Hb.
  assert (L : load_data to_float file = Ok None).
  { unfold load_data. rewrite E. cbn [bind]. unfold load_frame. now rewrite Ha, Hb. }
  split; [exact L|]. split; [|split; reflexivity].
  intros plotly st w. unfold main. now rewrite L.
Qed.

End Properties.

(** C2, as stated, fails.  An empty file, bytes that are not UTF-8 and a
    quoted field that is not closed raise in [read_csv], and a long-format
    file whose VALUE column holds a word raises in [pivot_table]: the mean
    of an object column is a TypeError. *)
Lemma load_data_can_raise :
  load_data simple_float EmptyString = Raise EmptyDataError
  /\ load_data simple_float undecodable_example = Raise UnicodeDecodeError
  /\ load_data simple_float open_quote_example = Raise ParserError
  /\ load_data simple_float text_value_example = Raise TypeError.
Proof. repeat split; reflexivity. Qed.

(** C8, as stated, fails.  An empty upload has neither shape, yet
    [load_data] does not return: [read_csv] raises EmptyDataError, and the
    script stops there without rendering the format error. *)
Lemma empty_upload_not_reported :
  load_data simple_float EmptyString = Raise EmptyDataError
  /\ main simple_float no_plot_error example_state example_widgets (Some EmptyString)
     = Raise EmptyDataError.
Proof. split; reflexivity. Qed.



(** ** The normalize branch *)

Lemma max_float_ge_1 : (1 <= max_float)%Q.
Proof. unfold Qle. vm_compute. discriminate. Qed.

Lemma overflow_small q : (Qabs q <= 1)%Q -> overflow q = Finite (Qred q).
Proof.
  intros H. unfold overflow.
  assert (E : Qle_bool (Qabs q) max_float = true).
  { apply Qle_bool_iff. eapply Qle_trans; [exact H|apply max_float_ge_1]. }
  now rewrite E.
Qed.

Lemma overflow_zero q : (q == 0)%Q -> overflow q = Finite 0.
Proof.
  intros H. rewrite overflow_small.
  - f_equal. change 0%Q with (Qred 0). now apply Qred_complete.
  - rewrite H. discriminate.
Qed.

Lemma fle_refl a : is_number a -> fle a a = true.
Proof.
  destruct a; cbn [fle]; intros H; try reflexivity; [|now elim H].
  apply Qle_bool_iff, Qle_refl.
Qed.

Lemma fle_trans a b c : fle a b = true -> fle b c = true -> fle a c = true.
Proof.
  destruct a, b, c; cbn [fle]; try congruence.
  rewrite !Qle_bool_iff. apply Qle_trans.
Qed.

Lemma fle_total a b : is_number a -> is_number b -> fle a b = false -> fle b a = true.
Proof.
  destruct a, b; cbn [fle]; intros Ha Hb; try congruence;
    try (now elim Ha); try (now elim Hb).
  intros H. apply Qle_bool_iff.
  destruct (Qlt_le_dec q0 q) as [L|L]; [now apply Qlt_le_weak|].
  apply Qle_bool_iff in L. congruence.
Qed.

Lemma fmin_number a b : is_number a -> is_number b -> is_number (fmin a b).
Proof. unfold fmin. now destruct (fle a b). Qed.

Lemma fmax_number a b : is_number a -> is_number b -> is_number (fmax a b).
Proof. unfold fmax. now destruct (fle a b). Qed.

Lemma fmin_le_l a b : is_number a -> is_number b -> fle (fmin a b) a = true.
Proof.
  intros Ha Hb. unfold fmin. destruct (fle a b) eqn:E.
  - now apply fle_refl.
  - now apply fle_total.
Qed.

Lemma fmin_le_r a b : is_number a -> is_number b -> fle (fmin a b) b = true.
Proof.
  intros Ha Hb. unfold fmin. destruct (fle a b) eqn:E; [exact E|now apply fle_refl].
Qed.

Lemma fmax_ge_l a b : is_number a -> is_number b -> fle a (fmax a b) = true.
Proof.
  intros Ha Hb. unfold fmax. destruct (fle a b) eqn:E; [exact E|now apply fle_refl].
Qed.

Lemma fmax_ge_r a b : is_number a -> is_number b -> fle b (fmax a b) = true.
Proof.
  intros Ha Hb. unfold fmax. destruct (fle a b) eqn:E.
  - now apply fle_refl.
  - now apply fle_total.
Qed.

Lemma fold_fmin_lower vs : forall v,
  is_number v -> Forall is_number vs ->
  is_number (fold_left fmin vs v)
  /\ fle (fold_left fmin vs v) v = true
  /\ forall x, In x vs -> fle (fold_left fmin vs v) x = true.
Proof.
  induction vs as [|a vs IH]; intros v Hv Hvs; simpl.
  - split; [assumption|]. split; [now apply fle_refl|tauto].
  - inversion Hvs as [|? ? Ha Hr]; subst.
    destruct (IH (fmin v a) (fmin_number v a Hv Ha) Hr) as [H0 [H1 H2]].
    split; [assumption|]. split.
    + eapply fle_trans; [exact H1|now apply fmin_le_l].
    + intros x [<-|Hx]; [|now apply H2].
      eapply fle_trans; [exact H1|now apply fmin_le_r].
Qed.

Lemma fold_fmax_upper vs : forall v,
  is_number v -> Forall is_number vs ->
  is_number (fold_left fmax vs v)
  /\ fle v (fold_left fmax vs v) = true
  /\ forall x, In x vs -> fle x (fold_left fmax vs v) = true.
Proof.
  induction vs as [|a vs IH]; intros v Hv Hvs; simpl.
  - split; [assumption|]. split; [now apply fle_refl|tauto].
  - inversion Hvs as [|? ? Ha Hr]; subst.
    destruct (IH (fmax v a) (fmax_number v a Hv Ha) Hr) as [H0 [H1 H2]].
    split; [assumption|]. split.
    + eapply fle_trans; [|exact H1]. now apply fmax_ge_l.
    + intros x [<-|Hx]; [|now apply H2].
      eapply fle_trans; [|exact H1]. now apply fmax_ge_r.
Qed.

Lemma numbers_of xs :
  Forall is_number (filter (fun x => negb (is_nan x)) xs).
Proof.
  apply Forall_forall. intros x Hx. apply filter_In in Hx. destruct Hx as [_ Hx].
  now destruct x.
Qed.

Lemma In_numbers x xs :
  In x xs -> is_number x -> In x (filter (fun x => negb (is_nan x)) xs).
Proof.
  intros Hx Hn. apply filter_In. split; [assumption|]. destruct x; try reflexivity.
  now elim Hn.
Qed.

Lemma col_min_lower xs x :
  In x xs -> is_number x -> fle (col_min xs) x = true.
Proof.
  intros Hx Hn. apply In_numbers in Hx; [|assumption].
  unfold col_min, reduce. assert (N := numbers_of xs).
  destruct (filter (fun x => negb (is_nan x)) xs) as [|v vs]; [contradiction|].
  inversion N as [|? ? Hv Hvs]; subst.
  destruct (fold_fmin_lower vs v Hv Hvs) as [_ [H1 H2]].
  destruct Hx as [<-|Hx]; auto.
Qed.

Lemma col_max_upper xs x :
  In x xs -> is_number x -> fle x (col_max xs) = true.
Proof.
  intros Hx Hn. apply In_numbers in Hx; [|assumption].
  unfold col_max, reduce. assert (N := numbers_of xs).
  destruct (filter (fun x => negb (is_nan x)) xs) as [|v vs]; [contradiction|].
  inversion N as [|? ? Hv Hvs]; subst.
  destruct (fold_fmax_upper vs v Hv Hvs) as [_ [H1 H2]].
  destruct Hx as [<-|Hx]; auto.
Qed.

(** Between a finite minimum and a finite maximum every number is finite. *)
Lemma finite_between xs m M x :
  col_min xs = Finite m -> col_max xs = Finite M ->
  In x xs -> is_number x ->
  exists v, x = Finite v /\ (m <= v)%Q /\ (v <= M)%Q.
Proof.
  intros Hm HM Hx Hn.
  assert (L := col_min_lower xs x Hx Hn). assert (U := col_max_upper xs x Hx Hn).
  rewrite Hm in L. rewrite HM in U.
  destruct x as [v| | |]; cbn [fle] in L, U; try discriminate.
  exists v. repeat split; now apply Qle_bool_iff.
Qed.

Lemma replace_zero_not_zero d0 d : replace_zero d0 = Finite d -> ~ (d == 0)%Q.
Proof.
  destruct d0 as [x| | |]; cbn [replace_zero]; try discriminate.
  destruct (Qeq_bool x 0) eqn:E; intros [= <-].
  - discriminate.
  - intros H. apply Qeq_bool_iff in H. congruence.
Qed.

(** C7 (as amended).  In a column whose minimum and maximum are finite and
    equal the denominator is replaced by 1 and every cell becomes 0 (a NaN
    cell, which a canonical table does not have, stays NaN); and for any
    column at all the denominator after the replacement is not zero. *)
Theorem flat_column_normalizes_to_zero xs m M :
  col_min xs = Finite m ->
  col_max xs = Finite M ->
  (m == M)%Q ->
  replace_zero (fsub (col_max xs) (col_min xs)) = Finite 1
  /\ normalize_col xs
     = map (fun x => match x with NaN => NaN | _ => Finite 0 end) xs
  /\ (Forall (fun x => x <> NaN) xs ->
      Forall (fun y => y = Finite 0) (normalize_col xs))
  /\ forall ys d,
       replace_zero (fsub (col_max ys) (col_min ys)) = Finite d ->
       ~ (d == 0)%Q.
Proof.
  intros Hm HM Heq.
  assert (D : replace_zero (fsub (col_max xs) (col_min xs)) = Finite 1).
  { rewrite Hm, HM. cbn [fsub]. rewrite overflow_zero by (rewrite Heq; ring).
    reflexivity. }
  assert (B : normalize_col xs
              = map (fun x => match x with NaN => NaN | _ => Finite 0 end) xs).
  { unfold normalize_col. rewrite D. apply map_ext_in. intros x Hx.
    destruct (is_nan x) eqn:N; [now destruct x|].
    assert (Hn : is_number x) by (intros ->; discriminate).
    destruct (finite_between xs m M x Hm HM Hx Hn) as [v [-> [L U]]].
    rewrite Hm. cbn [fsub].
    assert (E : (v == m)%Q) by (apply Qle_antisym; [now rewrite Heq|assumption]).
    rewrite overflow_zero by (rewrite E; ring). reflexivity. }
  split; [exact D|]. split; [exact B|]. split.
  - intros Hf. rewrite B. apply Forall_map.
    eapply Forall_impl; [|exact Hf]. intros [v| | |] Hv; try reflexivity. now elim Hv.
  - intros ys d. apply replace_zero_not_zero.
Qed.

(** C7, as stated, fails.  A column of infinities has its minimum equal to
    its maximum, and its cells become NaN, not zero: the difference of two
    infinities is NaN, which the replacement of zero leaves alone. *)
Lemma flat_infinite_column_is_nan :
  col_min [PosInf; PosInf] = col_max [PosInf; PosInf]
  /\ normalize_col [PosInf; PosInf] = [NaN; NaN].
Proof. split; reflexivity. Qed.

Lemma flat_column_normalizes_to_zero_witness :
  replace_zero (fsub (col_max [Finite 800; Finite 800; Finite 800])
                     (col_min [Finite 800; Finite 800; Finite 800])) = Finite 1
  /\ normalize_col [Finite 800; Finite 800; Finite 800]
     = [Finite 0; Finite 0; Finite 0].
Proof.
  destruct (flat_column_normalizes_to_zero
              [Finite 800; Finite 800; Finite 800] 800%Q 800%Q) as [A [B _]];
    try reflexivity.
  split; [exact A|exact B].
Defined.

(** ** Keys: equality and order *)

Lemma In_present {A : Type} (x : A) (l : list (option A)) :
  In x (present l) <-> In (Some x) l.
Proof.
  induction l as [|[a|] l IH]; simpl.
  - tauto.
  - rewrite IH. split; intros [H|H]; auto; left; congruence.
  - rewrite IH. split; [auto | intros [H|H]; [discriminate | assumption]].
Qed.

Lemma Qle_bool_total x y : Qle_bool x y = true \/ Qle_bool y x = true.
Proof.
  destruct (Qlt_le_dec x y) as [H|H].
  - left. apply Qle_bool_iff. now apply Qlt_le_weak.
  - right. now apply Qle_bool_iff.
Qed.

Lemma scalar_leb_total a b : scalar_le a b \/ scalar_le b a.
Proof.
  unfold scalar_le. destruct a as [x|x], b as [y|y]; simpl; auto.
  - apply Qle_bool_total.
  - apply String.leb_total.
Qed.

Lemma scalar_eqb_refl a : scalar_eqb a a = true.
Proof.
  destruct a; simpl.
  - apply Qeq_bool_iff. reflexivity.
  - apply String.eqb_refl.
Qed.

Lemma scalar_eqb_sym a b : scalar_eqb a b = scalar_eqb b a.
Proof.
  destruct a, b; simpl; try reflexivity.
  - destruct (Qeq_bool q q0) eqn:E1, (Qeq_bool q0 q) eqn:E2; try reflexivity.
    + apply Qeq_bool_iff in E1. symmetry in E1. apply Qeq_bool_iff in E1. congruence.
    + apply Qeq_bool_iff in E2. symmetry in E2. apply Qeq_bool_iff in E2. congruence.
  - apply String.eqb_sym.
Qed.

Lemma scalar_eqb_trans a b c :
  scalar_eqb a b = true -> scalar_eqb b c = true -> scalar_eqb a c = true.
Proof.
  destruct a, b, c; simpl; try discriminate.
  - intros H1 H2. apply Qeq_bool_iff in H1, H2. apply Qeq_bool_iff.
    now rewrite H1.
  - intros H1 H2. apply String.eqb_eq in H1, H2. subst. apply String.eqb_refl.
Qed.

(** Equal keys have the same place in the order. *)
Lemma scalar_leb_eqb_l a b c :
  scalar_eqb a b = true -> scalar_leb a c = scalar_leb b c.
Proof.
  destruct a, b, c; simpl; try discriminate; try reflexivity.
  - intros H. apply Qeq_bool_iff in H.
    destruct (Qle_bool q q1) eqn:E1, (Qle_bool q0 q1) eqn:E2; try reflexivity.
    + apply Qle_bool_iff in E1. rewrite H in E1. apply Qle_bool_iff in E1. congruence.
    + apply Qle_bool_iff in E2. rewrite <- H in E2. apply Qle_bool_iff in E2. congruence.
  - intros H. apply String.eqb_eq in H. now subst.
Qed.

(** ** sort_index *)

Lemma insert_by_In x y l : In x (insert_by y l) <-> x = y \/ In x l.
Proof.
  induction l as [|h t IH]; simpl.
  - intuition.
  - destruct (scalar_leb (fst y) (fst h)); simpl; rewrite ?IH; intuition.
Qed.

Lemma insert_by_length y l : List.length (insert_by y l) = S (List.length l).
Proof.
  induction l as [|h t IH]; simpl; [reflexivity|].
  destruct (scalar_leb (fst y) (fst h)); simpl; now rewrite ?IH.
Qed.

Lemma insert_by_sorted x l :
  Sorted scalar_le (map fst l) -> Sorted scalar_le (map fst (insert_by x l)).
Proof.
  induction l as [|h t IH]; simpl; intros HS.
  - repeat constructor.
  - destruct (scalar_leb (fst x) (fst h)) eqn:E; simpl.
    + constructor; [assumption | constructor; exact E].
    + apply Sorted_inv in HS. destruct HS as [HS Hhd].
      constructor; [now apply IH|].
      assert (Hxh : scalar_le (fst h) (fst x)).
      { destruct (scalar_leb_total (fst h) (fst x)) as [H|H]; [assumption|].
        unfold scalar_le in H. congruence. }
      destruct t as [|h' t']; simpl.
      * constructor. exact Hxh.
      * destruct (scalar_leb (fst x) (fst h')); simpl; constructor.
        -- exact Hxh.
        -- now inversion Hhd.
Qed.

Lemma sort_pairs_sorted l :
  Sorted scalar_le (map fst (fold_right insert_by [] l)).
Proof.
  induction l as [|x l IH]; simpl; [constructor | now apply insert_by_sorted].
Qed.

Lemma sort_pairs_In x l : In x (fold_right insert_by [] l) <-> In x l.
Proof.
  induction l as [|y l IH]; simpl; [tauto|].
  rewrite insert_by_In, IH. intuition.
Qed.

Lemma sort_pairs_length l : List.length (fold_right insert_by [] l) = List.length l.
Proof.
  induction l as [|y l IH]; simpl; [reflexivity|].
  now rewrite insert_by_length, IH.
Qed.

Lemma argsort_length ks : List.length (argsort ks) = List.length ks.
Proof.
  unfold argsort. rewrite sort_pairs_length, length_combine, length_seq. lia.
Qed.

Lemma combine_seq_snd {A : Type} (l : list A) k i :
  In i (map snd (combine l (seq k (List.length l)))) <-> k <= i < k + List.length l.
Proof.
  revert k. induction l as [|a l IH]; intros k; simpl.
  - lia.
  - rewrite IH. lia.
Qed.

Lemma argsort_positions ks i :
  In i (map snd (argsort ks)) <-> i < List.length ks.
Proof.
  unfold argsort. rewrite !in_map_iff.
  assert (H := combine_seq_snd ks 0 i). rewrite in_map_iff in H.
  split.
  - intros [x [E Hx]]. apply (proj1 (sort_pairs_In _ _)) in Hx.
    assert (G : 0 <= i < 0 + List.length ks).
    { apply (proj1 H). exists x. split; assumption. }
    lia.
  - intros Hi. destruct (proj2 H) as [x [E Hx]]; [lia|].
    exists x. split; [assumption | now apply sort_pairs_In].
Qed.

Lemma sort_index_sorted t : Sorted scalar_le (index (sort_index t)).
Proof. apply sort_pairs_sorted. Qed.

Lemma sort_index_lengths t :
  Forall (fun c => List.length (snd c) = List.length (index (sort_index t)))
         (cols (sort_index t)).
Proof.
  apply Forall_forall. intros c Hc. simpl in Hc. apply in_map_iff in Hc.
  destruct Hc as [c0 [<- _]]. simpl. unfold take. now rewrite !length_map.
Qed.

Lemma take_has_value (xs : list (option Q)) pos :
  (forall i, i < List.length xs -> In i pos) ->
  existsb is_some xs = true ->
  existsb is_some (take None pos xs) = true.
Proof.
  intros Hpos Hx. apply existsb_exists in Hx. destruct Hx as [x [Hin Hs]].
  apply In_nth with (d := None) in Hin. destruct Hin as [i [Hi E]].
  apply existsb_exists. exists x. split; [|assumption].
  unfold take. apply in_map_iff. exists i. split; [assumption | now apply Hpos].
Qed.

Lemma take_all_missing (xs : list (option Q)) pos :
  existsb is_some xs = false -> existsb is_some (take None pos xs) = false.
Proof.
  intros Hx. destruct (existsb is_some (take None pos xs)) eqn:E; [|reflexivity].
  apply existsb_exists in E. destruct E as [x [Hin Hs]].
  unfold take in Hin. apply in_map_iff in Hin. destruct Hin as [i [E _]].
  destruct x as [v|]; [|discriminate].
  assert (Hn : In (Some v) xs).
  { destruct (Nat.lt_ge_cases i (List.length xs)) as [Hi|Hi].
    - rewrite <- E. now apply nth_In.
    - rewrite nth_overflow in E by assumption. discriminate. }
  assert (C : existsb is_some xs = true) by (apply existsb_exists; eauto).
  congruence.
Qed.

(** ** ffill and bfill *)

Lemma ffill_from_length last xs : List.length (ffill_from last xs) = List.length xs.
Proof.
  revert last. induction xs as [|x r IH]; intros last; simpl; [reflexivity|].
  now rewrite IH.
Qed.

Lemma bfill_col_length xs : List.length (bfill_col xs) = List.length xs.
Proof.
  induction xs as [|[v|] r IH]; simpl; now rewrite ?IH.
Qed.

Lemma ffill_from_some v xs : filled (ffill_from (Some v) xs).
Proof.
  revert v. induction xs as [|[w|] r IH]; intros v; simpl; constructor;
    try discriminate; apply IH.
Qed.

Lemma bfill_filled xs : filled xs -> bfill_col xs = xs.
Proof.
  induction 1 as [|x r Hx _ IH]; simpl; [reflexivity|].
  destruct x; [now rewrite IH | congruence].
Qed.

Lemma bfill_ffill_filled xs :
  existsb is_some xs = true -> filled (bfill_col (ffill_col xs)).
Proof.
  unfold ffill_col. induction xs as [|[v|] r IH]; simpl; intros H.
  - discriminate.
  - rewrite bfill_filled by apply ffill_from_some.
    constructor; [discriminate | apply ffill_from_some].
  - specialize (IH H).
    destruct (bfill_col (ffill_from None r)) as [|y ys] eqn:E.
    + exfalso. assert (L := bfill_col_length (ffill_from None r)).
      rewrite E, ffill_from_length in L. destruct r; [discriminate H | discriminate L].
    + simpl. constructor; [now inversion IH | exact IH].
Qed.

Lemma filled_table_after_fill t :
  Forall (fun c => existsb is_some (snd c) = true) (cols t) ->
  Forall (fun c => filled (snd c)) (cols (bfill (ffill t))).
Proof.
  intros H. simpl. rewrite map_map. apply Forall_map. simpl.
  eapply Forall_impl; [|exact H]. intros c Hc. now apply bfill_ffill_filled.
Qed.

Lemma fill_index t : index (bfill (ffill t)) = index t.
Proof. reflexivity. Qed.

Lemma fill_lengths t n :
  Forall (fun c => List.length (snd c) = n) (cols t) ->
  Forall (fun c => List.length (snd c) = n) (cols (bfill (ffill t))).
Proof.
  intros H. simpl. rewrite map_map. apply Forall_map. simpl.
  eapply Forall_impl; [|exact H]. intros c Hc.
  unfold ffill_col. now rewrite bfill_col_length, ffill_from_length.
Qed.

Lemma dropna_columns_have_values t :
  Forall (fun c => existsb is_some (snd c) = true) (cols (dropna_columns t)).
Proof.
  apply Forall_forall. intros c Hc. simpl in Hc. now apply filter_In in Hc.
Qed.

(** ** The canonical table *)

Lemma bind_Ok {A B : Type} (r : result A) (k : A -> result B) b :
  bind r k = Ok b -> exists a, r = Ok a /\ k a = Ok b.
Proof.
  destruct r as [a|e]; simpl; [eauto | discriminate].
Qed.

Ltac inv_bind H :=
  let a := fresh "a" in
  let E := fresh "E" in
  apply bind_Ok in H; destruct H as [a [E H]].

Lemma pivot_table_shape df i c v t :
  pivot_table df i c v = Ok t ->
  Sorted scalar_le (index (sort_index t))
  /\ Forall (fun col => List.length (snd col) = List.length (index t)
                        /\ existsb is_some (snd col) = true) (cols t).
Proof.
  intros H. split; [apply sort_index_sorted|].
  unfold pivot_table in H. inv_bind H. inv_bind H. inv_bind H.
  destruct a1 as [vs|vs]; [|discriminate].
  injection H as <-. apply Forall_forall. intros col Hc.
  cbn [cols dropna_columns index] in *. apply filter_In in Hc.
  destruct Hc as [Hc Hv]. split; [|exact Hv].
  apply in_map_iff in Hc. destruct Hc as [p [<- _]]. cbn [snd].
  now rewrite length_map.
Qed.

Lemma sort_index_keeps_values t :
  Forall (fun col => List.length (snd col) = List.length (index t)
                     /\ existsb is_some (snd col) = true) (cols t) ->
  Forall (fun col => existsb is_some (snd col) = true) (cols (sort_index t)).
Proof.
  intros H. cbn [sort_index cols]. apply Forall_map. cbn [snd].
  eapply Forall_impl; [|exact H]. intros col [Hl Hv].
  apply take_has_value; [|exact Hv].
  intros i Hi. apply argsort_positions. now rewrite <- Hl.
Qed.

Lemma fill_well_filled t :
  Forall (fun col => List.length (snd col) = List.length (index t)) (cols t) ->
  Forall (fun col => existsb is_some (snd col) = true) (cols t) ->
  well_filled (bfill (ffill t)).
Proof.
  intros Hl Hv. unfold well_filled. rewrite fill_index.
  apply Forall_forall. intros col Hc. split.
  - assert (Hl' := fill_lengths t _ Hl).
    rewrite Forall_forall in Hl'. now apply Hl'.
  - assert (F := filled_table_after_fill t Hv).
    rewrite Forall_forall in F. now apply F.
Qed.

Section Canonical.

Variable to_float : string -> option Q.

Lemma load_frame_sorted_and_filled df t :
  load_frame to_float df = Ok (Some t) ->
  Sorted scalar_le (index t) /\ well_filled t.
Proof.
  unfold load_frame. destruct (format_A df).
  - intros H. inv_bind H. injection H as <-.
    destruct (pivot_table_shape _ _ _ _ _ E) as [HS HF].
    split; [exact HS|]. apply fill_well_filled.
    + apply sort_index_lengths.
    + now apply sort_index_keeps_values.
  - destruct (mem "time(ms)" (columns df)); [|discriminate].
    intros H. do 4 inv_bind H. injection H as <-.
    split; [apply sort_index_sorted|]. apply fill_well_filled.
    + cbn [dropna_columns cols index]. apply Forall_forall. intros col Hc.
      apply filter_In in Hc. destruct Hc as [Hc _].
      assert (L := sort_index_lengths a2). rewrite Forall_forall in L.
      now apply L.
    + apply dropna_columns_have_values.
Qed.

(** C1.  Whenever [load_data] returns a table, its row keys are in
    non-decreasing order and every column has a value, none missing, for
    each row key. *)
Theorem canonical_table_sorted_and_filled file t :
  load_data to_float file = Ok (Some t) ->
  Sorted scalar_le (index t)
  /\ Forall (fun col => List.length (snd col) = List.length (index t)
                        /\ Forall (fun x => x <> None) (snd col)) (cols t).
Proof.
  unfold load_data. intros H. inv_bind H.
  now apply load_frame_sorted_and_filled in H.
Qed.

End Canonical.

Lemma canonical_table_sorted_and_filled_witness :
  load_data simple_float gap_example = Ok (Some gap_table)
  /\ Sorted scalar_le (index gap_table)
  /\ Forall (fun col => List.length (snd col) = List.length (index gap_table)
                        /\ Forall (fun x => x <> None) (snd col)) (cols gap_table).
Proof.
  split; [reflexivity|].
  apply (canonical_table_sorted_and_filled simple_float gap_example gap_table).
  reflexivity.
Defined.

(** ** Columns of a frame *)

Lemma mem_In x l : mem x l = true <-> In x l.
Proof.
  unfold mem. rewrite existsb_exists. split.
  - intros [y [Hy E]]. apply String.eqb_eq in E. now subst.
  - intros H. exists x. split; [assumption | apply String.eqb_refl].
Qed.

Lemma mem_false x l : mem x l = false <-> ~ In x l.
Proof.
  rewrite <- mem_In. destruct (mem x l); split; congruence.
Qed.

Lemma get_column_In name df s :
  get_column name df = Ok s ->
  In (name, s) df /\ forall c, In c df -> fst c = name -> snd c = s.
Proof.
  unfold get_column. intros H.
  destruct (filter (fun c => String.eqb (fst c) name) df) as [|c0 [|c1 r]] eqn:E;
    try discriminate.
  injection H as <-.
  assert (H0 : In c0 (filter (fun c => String.eqb (fst c) name) df))
    by (rewrite E; now left).
  apply filter_In in H0. destruct H0 as [H0 N0]. apply String.eqb_eq in N0.
  split.
  - destruct c0 as [n0 s0]. simpl in *. now subst.
  - intros c Hc Hn.
    assert (Hf : In c (filter (fun c => String.eqb (fst c) name) df)).
    { apply filter_In. split; [assumption | now apply String.eqb_eq]. }
    rewrite E in Hf. destruct Hf as [<-|[]]. reflexivity.
Qed.

Lemma get_column_NoDup name s df :
  NoDup (columns df) -> In (name, s) df -> get_column name df = Ok s.
Proof.
  unfold get_column, columns. induction df as [|[n x] df IH]; simpl; intros ND Hin.
  - contradiction.
  - inversion ND as [|? ? Hn ND']; subst.
    destruct (String.eqb_spec n name) as [->|Hne].
    + assert (F : filter (fun c => String.eqb (fst c) name) df = []).
      { rewrite <- (filter_false df). apply filter_ext_in.
        intros c Hc. apply String.eqb_neq. intros Ec.
        apply Hn. apply in_map_iff. exists c. now split. }
      rewrite F. destruct Hin as [Hin|Hin].
      * now injection Hin as ->.
      * exfalso. apply Hn. apply in_map_iff. exists (name, s). now split.
    + destruct Hin as [Hin|Hin]; [congruence|]. now apply IH.
Qed.

Lemma columns_set_column n s df :
  columns (set_column n s df)
  = if mem n (columns df) then columns df else columns df ++ [n].
Proof.
  unfold set_column, columns. destruct (mem n (map fst df)).
  - rewrite map_map. apply map_ext. intros c.
    destruct (String.eqb_spec (fst c) n); simpl; congruence.
  - now rewrite map_app.
Qed.

Lemma In_set_column_other c n s df :
  In c (set_column n s df) -> fst c <> n -> In c df.
Proof.
  unfold set_column. destruct (mem n (columns df)); intros Hc Hn.
  - apply in_map_iff in Hc. destruct Hc as [c0 [E Hc0]].
    destruct (String.eqb_spec (fst c0) n); subst; simpl in *; congruence.
  - apply in_app_or in Hc. destruct Hc as [Hc|[<-|[]]]; simpl in *; congruence.
Qed.

Lemma set_column_other_In c n s df :
  In c df -> fst c <> n -> In c (set_column n s df).
Proof.
  unfold set_column. destruct (mem n (columns df)); intros Hc Hn.
  - apply in_map_iff. exists c. split; [|assumption].
    destruct (String.eqb_spec (fst c) n); congruence.
  - apply in_or_app. now left.
Qed.

Lemma set_column_as_map n s df :
  get_column n df = Ok s ->
  forall s', set_column n s' df
             = map (fun c => if String.eqb (fst c) n then (fst c, s') else c) df.
Proof.
  intros H s'. apply get_column_In in H. destruct H as [Hin _].
  unfold set_column.
  assert (M : mem n (columns df) = true).
  { apply mem_In. unfold columns. apply in_map_iff. now exists (n, s). }
  rewrite M. apply map_ext. intros c.
  destruct (String.eqb_spec (fst c) n); congruence.
Qed.

Lemma columns_map_snd (f : string * series -> series) (df : frame) :
  columns (map (fun c => (fst c, f c)) df) = columns df.
Proof.
  unfold columns. rewrite map_map. reflexivity.
Qed.

Lemma mapM_In {A B : Type} (f : A -> result B) l bs :
  mapM f l = Ok bs -> forall b, In b bs -> exists a, In a l /\ f a = Ok b.
Proof.
  revert bs. induction l as [|a l IH]; simpl; intros bs H b Hb.
  - injection H as <-. contradiction.
  - inv_bind H. inv_bind H. injection H as <-.
    destruct Hb as [<-|Hb].
    + exists a. auto.
    + destruct (IH _ E0 b Hb) as [a' [Ha' Ea']]. exists a'. auto.
Qed.

Lemma mapM_total {A B : Type} (f : A -> result B) l :
  (forall a, In a l -> exists b, f a = Ok b) -> exists bs, mapM f l = Ok bs.
Proof.
  induction l as [|a l IH]; simpl; intros H.
  - eauto.
  - destruct (H a (or_introl eq_refl)) as [b Eb].
    destruct IH as [bs Ebs]; [intros; apply H; now right|].
    rewrite Eb, Ebs. simpl. eauto.
Qed.

(** ** The wide format, step by step *)

Section WideFormat.

Variable to_float : string -> option Q.

Lemma load_frame_wide df :
  format_A df = false ->
  mem "time(ms)" (columns df) = true ->
  load_frame to_float df
  = (t <- get_column "time(ms)" df ;;
     seconds <- truediv t 1000%Q ;;
     df2 <- coerce_columns to_float (sensor_columns (prepared seconds df))
                           (prepared seconds df) ;;
     g <- groupby_mean "SECONDS" df2 ;;
     Ok (Some (bfill (ffill (dropna_columns (sort_index g)))))).
Proof.
  intros Ha Hb. unfold load_frame. now rewrite Ha, Hb.
Qed.

Lemma to_numeric_idem s :
  to_numeric to_float (to_numeric to_float s) = to_numeric to_float s.
Proof. now destruct s. Qed.

Lemma to_numeric_float s : exists xs, to_numeric to_float s = Float64 xs.
Proof. destruct s; simpl; eauto. Qed.

Lemma get_series_Ok col df s :
  get_series col df = Ok s -> get_column col df = Ok s.
Proof.
  unfold get_series. destruct (get_column col df) as [s'|[]]; congruence.
Qed.

Lemma get_series_of col df s :
  get_column col df = Ok s -> get_series col df = Ok s.
Proof. unfold get_series. now intros ->. Qed.

Lemma coerce_columns_spec l : forall df df',
  coerce_columns to_float l df = Ok df' -> df' = coerced to_float l df.
Proof.
  induction l as [|col rest IH]; intros df df' H; simpl in H.
  - injection H as <-. unfold coerced. simpl. now rewrite map_id.
  - inv_bind H. apply get_series_Ok in E.
    rewrite (set_column_as_map _ _ _ E) in H.
    apply IH in H. subst df'. unfold coerced. rewrite map_map.
    apply map_ext_in. intros c Hc. unfold mem at 2. cbn [existsb].
    fold (mem (fst c) rest). rewrite String.eqb_sym.
    destruct (String.eqb_spec col (fst c)) as [Ec|Ec]; cbn [fst snd orb].
    + apply get_column_In in E. destruct E as [_ U].
      rewrite (U c Hc (eq_sym Ec)).
      destruct (mem (fst c) rest); [now rewrite to_numeric_idem | reflexivity].
    + reflexivity.
Qed.

Lemma coerce_columns_total l : forall df,
  NoDup (columns df) ->
  (forall n, In n l -> In n (columns df)) ->
  coerce_columns to_float l df = Ok (coerced to_float l df).
Proof.
  induction l as [|col rest IH]; intros df ND Hl.
  - simpl. unfold coerced. simpl. now rewrite map_id.
  - assert (Hc : In col (columns df)) by (apply Hl; now left).
    unfold columns in Hc. apply in_map_iff in Hc. destruct Hc as [[n s] [En Hin]].
    simpl in En. subst n.
    assert (G := get_column_NoDup col s df ND Hin).
    assert (R : exists df', coerce_columns to_float (col :: rest) df = Ok df').
    { simpl. rewrite (get_series_of _ _ _ G). cbn [bind]. eexists. apply IH.
      - rewrite columns_set_column.
        assert (M : mem col (columns df) = true).
        { apply mem_In. unfold columns. apply in_map_iff. now exists (col, s). }
        now rewrite M.
      - intros n Hn. rewrite columns_set_column.
        assert (M : mem col (columns df) = true).
        { apply mem_In. unfold columns. apply in_map_iff. now exists (col, s). }
        rewrite M. apply Hl. now right. }
    destruct R as [df' R]. rewrite R. f_equal. now apply coerce_columns_spec.
Qed.


Lemma mean_skipna_some xs v :
  mean_skipna xs = Some v -> exists w, In (Some w) xs.
Proof.
  unfold mean_skipna. destruct (present xs) as [|w ws] eqn:E; [discriminate|].
  intros _. exists w. apply In_present. rewrite E. now left.
Qed.

Lemma group_values_incl g ks xs x :
  In x (group_values g ks xs) -> In x xs.
Proof.
  unfold group_values. intros H. apply in_map_iff in H.
  destruct H as [[k y] [E H]]. simpl in E. subst y.
  apply filter_In in H. destruct H as [H _]. now apply in_combine_r in H.
Qed.

Lemma groupby_mean_columns key df g :
  groupby_mean key df = Ok g ->
  forall col, In col (cols g) ->
  exists name xs,
    fst col = Str name /\ name <> key /\ In (name, Float64 xs) df
    /\ forall v, In (Some v) (snd col) -> exists w, In (Some w) xs.
Proof.
  unfold groupby_mean. intros H col Hc. inv_bind H. inv_bind H.
  injection H as <-. cbn [cols] in Hc.
  destruct (mapM_In _ _ _ E0 col Hc) as [[name s] [Hin Hf]].
  apply filter_In in Hin. destruct Hin as [Hin Hk]. cbn [fst snd] in *.
  destruct s as [xs|xs]; [|discriminate]. injection Hf as <-.
  exists name, xs. cbn [fst snd]. repeat split.
  - apply negb_true_iff in Hk. now apply String.eqb_neq.
  - assumption.
  - intros v Hv. apply in_map_iff in Hv. destruct Hv as [k [Hm _]].
    apply mean_skipna_some in Hm. destruct Hm as [w Hw].
    exists w. eapply group_values_incl. exact Hw.
Qed.

Lemma prepared_In c seconds df :
  In c (prepared seconds df) -> fst c <> "SECONDS" ->
  exists c0, In c0 df /\ fst c0 = fst c /\ snd c = replace_series "-" (snd c0).
Proof.
  unfold prepared, replace, drop_column. intros H Hn.
  apply in_map_iff in H. destruct H as [c0 [<- H]]. cbn [fst snd] in *.
  apply filter_In in H. destruct H as [H _].
  apply In_set_column_other in H; [|assumption].
  exists c0. auto.
Qed.

Lemma table_labels_after_fill t :
  map fst (cols (bfill (ffill t))) = map fst (cols t).
Proof.
  simpl. rewrite !map_map. reflexivity.
Qed.




End WideFormat.

(** ** The wide format does not fail on distinct labels and numeric times *)

Lemma columns_drop_column n df :
  columns (drop_column n df)
  = filter (fun c => negb (String.eqb c n)) (columns df).
Proof.
  unfold columns, drop_column. now rewrite filter_map_swap.
Qed.

Lemma columns_prepared seconds df :
  columns (prepared seconds df)
  = filter (fun c => negb (String.eqb c "time(ms)"))
           (columns (set_column "SECONDS" seconds df)).
Proof.
  unfold prepared, replace. rewrite columns_map_snd with (f := fun c => replace_series "-" (snd c)).
  apply columns_drop_column.
Qed.

Lemma NoDup_columns_set_column n s df :
  NoDup (columns df) -> NoDup (columns (set_column n s df)).
Proof.
  intros ND. rewrite columns_set_column.
  destruct (mem n (columns df)) eqn:M; [assumption|].
  apply NoDup_app; [assumption | repeat constructor; simpl; tauto|].
  intros x Hx [<-|[]]. apply mem_false in M. contradiction.
Qed.

Lemma NoDup_columns_prepared seconds df :
  NoDup (columns df) -> NoDup (columns (prepared seconds df)).
Proof.
  intros ND. rewrite columns_prepared. apply NoDup_filter.
  now apply NoDup_columns_set_column.
Qed.

Lemma SECONDS_in_prepared seconds df :
  In "SECONDS" (columns (prepared seconds df)).
Proof.
  rewrite columns_prepared. apply filter_In. split; [|reflexivity].
  rewrite columns_set_column.
  destruct (mem "SECONDS" (columns df)) eqn:M.
  - now apply mem_In.
  - apply in_or_app. right. now left.
Qed.

Section WideTotal.

Variable to_float : string -> option Q.

Lemma columns_coerced l df : columns (coerced to_float l df) = columns df.
Proof.
  unfold coerced, columns. rewrite map_map. apply map_ext.
  intros c. now destruct (mem (fst c) l).
Qed.

Lemma load_frame_wide_total df tm :
  format_A df = false ->
  NoDup (columns df) ->
  get_column "time(ms)" df = Ok (Float64 tm) ->
  exists t, load_frame to_float df = Ok (Some t).
Proof.
  intros Ha ND Ht.
  assert (Hb : mem "time(ms)" (columns df) = true).
  { apply mem_In. apply get_column_In in Ht. destruct Ht as [Ht _].
    unfold columns. apply in_map_iff. now exists ("time(ms)", Float64 tm). }
  rewrite (load_frame_wide to_float df Ha Hb), Ht. cbn [bind truediv].
  set (seconds := Float64 _). set (df1 := prepared seconds df).
  assert (ND1 : NoDup (columns df1)) by now apply NoDup_columns_prepared.
  rewrite coerce_columns_total; [|assumption|].
  2:{ intros n Hn. unfold sensor_columns in Hn. now apply filter_In in Hn. }
  cbn [bind]. set (df2 := coerced to_float (sensor_columns df1) df1).
  assert (C2 : columns df2 = columns df1) by apply columns_coerced.
  assert (G : exists k, get_column "SECONDS" df2 = Ok k).
  { assert (Hs : In "SECONDS" (columns df2)).
    { rewrite C2. apply SECONDS_in_prepared. }
    unfold columns in Hs. apply in_map_iff in Hs. destruct Hs as [[n k] [En Hin]].
    simpl in En. subst n. exists k. apply get_column_NoDup; [now rewrite C2 | assumption]. }
  destruct G as [k G]. unfold groupby_mean. rewrite G. cbn [bind].
  match goal with |- context [mapM ?f ?l] => destruct (mapM_total f l) as [cs Ecs] end.
  - intros c Hc. apply filter_In in Hc. destruct Hc as [Hc Hk].
    unfold df2, coerced in Hc. apply in_map_iff in Hc. destruct Hc as [c1 [Ec Hc1]].
    assert (M : mem (fst c1) (sensor_columns df1) = true).
    { apply mem_In. unfold sensor_columns. apply filter_In. split.
      - unfold columns. apply in_map_iff. now exists c1.
      - destruct (mem (fst c1) (sensor_columns df1)); subst c; exact Hk. }
    rewrite M in Ec. subst c. cbn [fst snd].
    destruct (to_numeric_float to_float (snd c1)) as [xs ->]. eauto.
  - rewrite Ecs. cbn [bind]. eauto.
Qed.



Lemma load_frame_long_total df ss ps vs :
  format_A df = true ->
  get_column "SECONDS" df = Ok ss ->
  get_column "PID" df = Ok ps ->
  get_column "VALUE" df = Ok (Float64 vs) ->
  exists t, load_frame to_float df = Ok (Some t).
Proof.
  intros Ha Hs Hp Hv. unfold load_frame, pivot_table.
  rewrite Ha, Hs, Hp, Hv. cbn [bind]. eauto.
Qed.

(** C2 (as amended).  A file that decodes as UTF-8, whose lines end with
    LF or CR LF and that the tokenizer cuts into a header and data records
    is always read, whatever its lines.  Then [load_data] returns [None] when the labels are of neither
    format; a table for a wide-format file with distinct labels and a
    numeric [time(ms)] column, whatever its sensor cells hold; and a table
    for a long-format file in which SECONDS, PID and VALUE each name one
    column and VALUE is numeric. *)
Theorem load_data_returns file header rs :
  no_lone_CR file = true ->
  tokenize file = Ok (header :: rs) ->
  exists df0,
    read_csv to_float file = Ok df0
    /\ columns df0 = header_names header
    /\ (format_A (strip_columns df0) = false ->
        mem "time(ms)" (columns (strip_columns df0)) = false ->
        load_data to_float file = Ok None)
    /\ (format_A (strip_columns df0) = false ->
        NoDup (columns (strip_columns df0)) ->
        forall tm,
          get_column "time(ms)" (strip_columns df0) = Ok (Float64 tm) ->
          exists t, load_data to_float file = Ok (Some t))
    /\ (format_A (strip_columns df0) = true ->
        forall ss ps vs,
          get_column "SECONDS" (strip_columns df0) = Ok ss ->
          get_column "PID" (strip_columns df0) = Ok ps ->
          get_column "VALUE" (strip_columns df0) = Ok (Float64 vs) ->
          exists t, load_data to_float file = Ok (Some t)).
Proof.
  intros _ T. destruct (read_records_columns to_float header rs) as [df0 [E [Hc _]]].
  rewrite <- (read_csv_records to_float file _ T) in E.
  exists df0. split; [exact E|]. split; [exact Hc|].
  assert (L : load_data to_float file = load_frame to_float (strip_columns df0)).
  { unfold load_data. now rewrite E. }
  rewrite L. repeat split.
  - intros Ha Hb. unfold load_frame. now rewrite Ha, Hb.
  - intros Ha ND tm Ht. now apply (load_frame_wide_total _ tm).
  - intros Ha ss ps vs Hs Hp Hv. now apply (load_frame_long_total _ ss ps vs).
Qed.

End WideTotal.

(** ** The row keys of the wide format *)

Lemma In_set_column_same c n s df :
  In c (set_column n s df) -> fst c = n -> snd c = s.
Proof.
  unfold set_column. destruct (mem n (columns df)) eqn:M; intros Hc Hn.
  - apply in_map_iff in Hc. destruct Hc as [c0 [E Hc0]].
    destruct (String.eqb_spec (fst c0) n); subst c; simpl in *; congruence.
  - apply in_app_or in Hc. destruct Hc as [Hc|[<-|[]]]; [|reflexivity].
    exfalso. apply mem_false in M. apply M. unfold columns.
    apply in_map_iff. now exists c.
Qed.

Lemma insert_key_In k x l : In k (insert_key x l) -> k = x \/ In k l.
Proof.
  induction l as [|h t IH]; simpl.
  - intuition.
  - destruct (scalar_eqb x h); [auto|].
    destruct (scalar_leb x h); simpl; intuition.
Qed.

Lemma sort_unique_In k l : In k (sort_unique l) -> In k l.
Proof.
  induction l as [|x l IH]; simpl; [tauto|].
  intros H. apply insert_key_In in H. intuition.
Qed.

Lemma argsort_In k ks : In k (map fst (argsort ks)) -> In k ks.
Proof.
  unfold argsort. intros H. apply in_map_iff in H. destruct H as [[k' i] [E H]].
  simpl in E. subst k'. apply (proj1 (sort_pairs_In _ _)) in H.
  now apply in_combine_l in H.
Qed.

Lemma SECONDS_not_sensor df : mem "SECONDS" (sensor_columns df) = false.
Proof.
  apply mem_false. unfold sensor_columns. intros H. apply filter_In in H.
  destruct H as [_ H]. discriminate.
Qed.

Section WideKeys.

Variable to_float : string -> option Q.

Lemma seconds_column seconds df k :
  get_column "SECONDS"
    (coerced to_float (sensor_columns (prepared seconds df)) (prepared seconds df))
  = Ok k ->
  k = replace_series "-" seconds.
Proof.
  intros H. apply get_column_In in H. destruct H as [H _].
  unfold coerced in H. apply in_map_iff in H. destruct H as [c1 [E1 H1]].
  assert (N1 : fst c1 = "SECONDS").
  { destruct (mem (fst c1) _); now inversion E1. }
  rewrite N1, SECONDS_not_sensor in E1. subst c1.
  unfold prepared, replace, drop_column in H1. apply in_map_iff in H1.
  destruct H1 as [c0 [E0 H0]]. apply filter_In in H0. destruct H0 as [H0 _].
  injection E0 as N0 <-. now rewrite (In_set_column_same _ _ _ _ H0 N0).
Qed.

Lemma wide_keys df tm t :
  format_A df = false ->
  get_column "time(ms)" df = Ok (Float64 tm) ->
  load_frame to_float df = Ok (Some t) ->
  forall k, In k (index t) ->
  exists ms, In (Some ms) tm /\ k = Flt (Qred (ms / 1000)%Q).
Proof.
  intros Ha Ht H k Hk.
  assert (Hb : mem "time(ms)" (columns df) = true).
  { apply mem_In. apply get_column_In in Ht. destruct Ht as [Ht _].
    unfold columns. apply in_map_iff. now exists ("time(ms)", Float64 tm). }
  rewrite (load_frame_wide to_float df Ha Hb), Ht in H. cbn [bind truediv] in H.
  inv_bind H. inv_bind H. injection H as <-.
  rewrite fill_index in Hk. cbn [dropna_columns index] in Hk.
  apply argsort_In in Hk.
  unfold groupby_mean in E0. inv_bind E0. inv_bind E0. injection E0 as <-.
  cbn [index] in Hk. apply sort_unique_In in Hk.
  apply coerce_columns_spec in E. subst a.
  apply seconds_column in E1. subst a1. cbn [replace_series keys] in Hk.
  apply In_present in Hk. rewrite map_map in Hk. apply in_map_iff in Hk.
  destruct Hk as [[ms|] [Ek Hin]]; [|discriminate].
  exists ms. split; [assumption|]. now injection Ek as <-.
Qed.

Lemma replace_series_idem v s :
  replace_series v (replace_series v s) = replace_series v s.
Proof.
  destruct s as [xs|xs]; simpl; [reflexivity|]. f_equal. rewrite map_map.
  apply map_ext. intros [t|]; [|reflexivity].
  destruct (String.eqb t v) eqn:E; [reflexivity | now rewrite E].
Qed.

Lemma columns_replace v df : columns (replace v df) = columns df.
Proof.
  unfold replace, columns. now rewrite map_map.
Qed.

Lemma get_column_replace v name df :
  get_column name (replace v df)
  = (s <- get_column name df ;; Ok (replace_series v s)).
Proof.
  unfold get_column, replace. rewrite filter_map_swap. cbn [fst].
  destruct (filter (fun c => String.eqb (fst c) name) df) as [|c0 [|c1 r]];
    reflexivity.
Qed.

Lemma prepared_replace seconds df :
  prepared (replace_series "-" seconds) (replace "-" df) = prepared seconds df.
Proof.
  unfold prepared, drop_column, set_column.
  rewrite columns_replace. destruct (mem "SECONDS" (columns df)).
  - unfold replace. rewrite !map_map. cbn [fst snd].
    induction df as [|c df IH]; [reflexivity|]. cbn [map].
    destruct (String.eqb (fst c) "SECONDS") eqn:E; cbn [filter fst snd].
    + cbn. f_equal; [now rewrite replace_series_idem | exact IH].
    + destruct (negb (String.eqb (fst c) "time(ms)")); cbn [map fst snd].
      * f_equal; [now rewrite replace_series_idem | exact IH].
      * exact IH.
  - unfold replace. rewrite !filter_app, !map_app.
    f_equal.
    + induction df as [|c df IH]; [reflexivity|]. cbn [map filter fst snd].
      destruct (negb (String.eqb (fst c) "time(ms)")); cbn [map fst snd].
      * f_equal; [now rewrite replace_series_idem | exact IH].
      * exact IH.
    + cbn. now rewrite replace_series_idem.
Qed.

(** A dash in a cell of a wide-format file is the same as no cell. *)
Lemma dash_is_missing df tm :
  format_A df = false ->
  get_column "time(ms)" df = Ok (Float64 tm) ->
  load_frame to_float (replace "-" df) = load_frame to_float df.
Proof.
  intros Ha Ht.
  assert (Hb : mem "time(ms)" (columns df) = true).
  { apply mem_In. apply get_column_In in Ht. destruct Ht as [Ht _].
    unfold columns. apply in_map_iff. now exists ("time(ms)", Float64 tm). }
  rewrite (load_frame_wide to_float df Ha Hb).
  rewrite (load_frame_wide to_float (replace "-" df));
    [| unfold format_A in *; now rewrite columns_replace
     | now rewrite columns_replace].
  rewrite get_column_replace, Ht. cbn [bind replace_series truediv].
  set (seconds := Float64 _).
  change (prepared seconds (replace "-" df))
    with (prepared (replace_series "-" seconds) (replace "-" df)).
  now rewrite prepared_replace.
Qed.

End WideKeys.



(** ** Rows without a time *)

Lemma select_nil {A : Type} (mask : list bool) : select mask (@nil A) = [].
Proof. unfold select. now rewrite combine_nil. Qed.

Lemma select_cons {A : Type} (b : bool) mask (x : A) xs :
  select (b :: mask) (x :: xs) = if b then x :: select mask xs else select mask xs.
Proof. unfold select. simpl. now destruct b. Qed.

Lemma select_map {A B : Type} (f : A -> B) mask xs :
  select mask (map f xs) = map f (select mask xs).
Proof.
  revert xs. induction mask as [|b mask IH]; intros xs; [reflexivity|].
  destruct xs as [|x xs]; [reflexivity|].
  cbn [map]. rewrite !select_cons, IH. now destruct b.
Qed.

Lemma present_select {A : Type} (ks : list (option A)) :
  present (select (map is_some ks) ks) = present ks.
Proof.
  induction ks as [|[k|] ks IH]; [reflexivity| |]; cbn [map is_some];
    rewrite select_cons; simpl; now rewrite IH.
Qed.

Lemma group_values_select g ks xs :
  group_values g (select (map is_some ks) ks) (select (map is_some ks) xs)
  = group_values g ks xs.
Proof.
  revert xs. induction ks as [|k ks IH]; intros xs; [reflexivity|].
  destruct xs as [|x xs].
  - rewrite select_nil. unfold group_values. now rewrite !combine_nil.
  - cbn [map]. rewrite !select_cons. destruct k as [k|]; cbn [is_some].
    + unfold group_values in *. cbn [combine filter fst].
      destruct (key_is g (Some k)); cbn [map]; now rewrite IH.
    + rewrite IH. unfold group_values. reflexivity.
Qed.

Lemma keys_select mask s : keys (series_select mask s) = select mask (keys s).
Proof.
  destruct s; simpl; now rewrite select_map.
Qed.

Lemma columns_keep_rows mask df : columns (keep_rows mask df) = columns df.
Proof.
  unfold keep_rows, columns. now rewrite map_map.
Qed.

Lemma get_column_keep_rows mask name df :
  get_column name (keep_rows mask df)
  = (s <- get_column name df ;; Ok (series_select mask s)).
Proof.
  unfold get_column, keep_rows. rewrite filter_map_swap. cbn [fst].
  destruct (filter (fun c => String.eqb (fst c) name) df) as [|c0 [|c1 r]];
    reflexivity.
Qed.

Lemma set_column_keep_rows mask n s df :
  set_column n (series_select mask s) (keep_rows mask df)
  = keep_rows mask (set_column n s df).
Proof.
  unfold set_column. rewrite columns_keep_rows.
  destruct (mem n (columns df)); unfold keep_rows.
  - rewrite !map_map. apply map_ext. intros c. cbn [fst].
    now destruct (String.eqb (fst c) n).
  - now rewrite map_app.
Qed.

Lemma drop_column_keep_rows mask n df :
  drop_column n (keep_rows mask df) = keep_rows mask (drop_column n df).
Proof.
  unfold drop_column, keep_rows. now rewrite filter_map_swap.
Qed.

Lemma replace_series_select mask v s :
  replace_series v (series_select mask s) = series_select mask (replace_series v s).
Proof.
  destruct s; simpl; [reflexivity|]. now rewrite select_map.
Qed.

Lemma replace_keep_rows mask v df :
  replace v (keep_rows mask df) = keep_rows mask (replace v df).
Proof.
  unfold replace, keep_rows. rewrite !map_map. apply map_ext. intros c.
  cbn [fst snd]. now rewrite replace_series_select.
Qed.

Lemma prepared_keep_rows mask seconds df :
  prepared (series_select mask seconds) (keep_rows mask df)
  = keep_rows mask (prepared seconds df).
Proof.
  unfold prepared.
  now rewrite set_column_keep_rows, drop_column_keep_rows, replace_keep_rows.
Qed.

Section MissingTime.

Variable to_float : string -> option Q.

Lemma to_numeric_select mask s :
  to_numeric to_float (series_select mask s)
  = series_select mask (to_numeric to_float s).
Proof.
  destruct s; simpl; [reflexivity|]. now rewrite select_map.
Qed.

Lemma coerce_columns_keep_rows mask l : forall df,
  coerce_columns to_float l (keep_rows mask df)
  = (df' <- coerce_columns to_float l df ;; Ok (keep_rows mask df')).
Proof.
  induction l as [|col rest IH]; intros df; [reflexivity|].
  cbn [coerce_columns]. unfold get_series. rewrite get_column_keep_rows.
  destruct (get_column col df) as [s|e]; [|now destruct e]. cbn [bind].
  now rewrite to_numeric_select, set_column_keep_rows, IH.
Qed.

Lemma groupby_mean_keep_rows key df k :
  get_column key df = Ok k ->
  groupby_mean key (keep_rows (map is_some (keys k)) df) = groupby_mean key df.
Proof.
  intros Hk. unfold groupby_mean. rewrite get_column_keep_rows, Hk. cbn [bind].
  rewrite keys_select, present_select.
  set (ks := keys k). set (idx := sort_unique (present ks)).
  replace (mapM _ (filter _ (keep_rows (map is_some ks) df)))
    with (mapM (fun c =>
                  match snd c with
                  | Float64 xs =>
                      Ok (Str (fst c),
                          map (fun g => mean_skipna (group_values g ks xs)) idx)
                  | Object _ => Raise TypeError
                  end)
               (filter (fun c => negb (String.eqb (fst c) key)) df));
    [reflexivity|].
  clear Hk. induction df as [|c df IH]; [reflexivity|].
  cbn [keep_rows map filter fst]. fold (keep_rows (map is_some ks) df).
  destruct (negb (String.eqb (fst c) key)); [|exact IH].
  cbn [mapM]. rewrite IH. cbn [fst snd].
  destruct (snd c) as [xs|xs]; cbn [series_select]; [|reflexivity].
  f_equal. f_equal. f_equal. (* the column of means *)
  apply map_ext. intros g. now rewrite group_values_select.
Qed.

Lemma rows_without_time_ignored df tm :
  format_A df = false ->
  get_column "time(ms)" df = Ok (Float64 tm) ->
  load_frame to_float (keep_rows (map is_some tm) df) = load_frame to_float df.
Proof.
  intros Ha Ht.
  assert (Hb : mem "time(ms)" (columns df) = true).
  { apply mem_In. apply get_column_In in Ht. destruct Ht as [Ht _].
    unfold columns. apply in_map_iff. now exists ("time(ms)", Float64 tm). }
  set (mask := map is_some tm).
  rewrite (load_frame_wide to_float df Ha Hb).
  rewrite (load_frame_wide to_float (keep_rows mask df));
    [| unfold format_A in *; now rewrite columns_keep_rows
     | now rewrite columns_keep_rows].
  rewrite get_column_keep_rows, Ht. cbn [bind series_select truediv].
  rewrite <- select_map.
  set (seconds := Float64 (map _ tm)).
  change (Float64 (select mask _)) with (series_select mask seconds).
  rewrite prepared_keep_rows.
  unfold sensor_columns at 1. rewrite columns_keep_rows.
  fold (sensor_columns (prepared seconds df)).
  rewrite coerce_columns_keep_rows.
  destruct (coerce_columns to_float _ (prepared seconds df)) as [df2|e] eqn:E;
    [|reflexivity].
  cbn [bind].
  destruct (get_column "SECONDS" df2) as [k|e] eqn:Ek.
  - assert (Hk : k = replace_series "-" seconds).
    { apply coerce_columns_spec in E. subst df2. now apply seconds_column in Ek. }
    assert (Hm : mask = map is_some (keys k)).
    { subst k. unfold seconds, mask. simpl. rewrite !map_map.
      apply map_ext. now intros [x|]. }
    rewrite Hm. now rewrite (groupby_mean_keep_rows "SECONDS" df2 k Ek).
  - unfold groupby_mean. now rewrite get_column_keep_rows, Ek.
Qed.

(** C10.  In a wide-format file the rows whose [time(ms)] cell is missing
    are not in the canonical table: [load_data] gives what it gives on the
    frame without those rows. *)
Theorem rows_without_time_excluded file df0 tm :
  read_csv to_float file = Ok df0 ->
  format_A (strip_columns df0) = false ->
  get_column "time(ms)" (strip_columns df0) = Ok (Float64 tm) ->
  load_data to_float file
  = load_frame to_float (keep_rows (map is_some tm) (strip_columns df0)).
Proof.
  intros E Ha Ht. unfold load_data. rewrite E. cbn [bind].
  symmetry. now apply rows_without_time_ignored.
Qed.

End MissingTime.

(** ** Cells of the long format *)




Lemma insert_key_has x l :
  (exists y, In y (insert_key x l) /\ scalar_eqb y x = true)
  /\ forall z, In z l -> In z (insert_key x l).
Proof.
  induction l as [|h t [[y [Hy Ey]] IH2]]; simpl.
  - split; [|intros z []]. exists x. split; [now left | apply scalar_eqb_refl].
  - destruct (scalar_eqb x h) eqn:E.
    + split; [|intros z Hz; exact Hz]. exists h. split; [now left|].
      now rewrite scalar_eqb_sym.
    + destruct (scalar_leb x h).
      * split; [|intros z Hz; now right].
        exists x. split; [now left | apply scalar_eqb_refl].
      * split.
        -- exists y. split; [now right | exact Ey].
        -- intros z [<-|Hz]; [now left | right; now apply IH2].
Qed.

Lemma sort_unique_has x l :
  In x l -> exists y, In y (sort_unique l) /\ scalar_eqb y x = true.
Proof.
  induction l as [|a l IH]; [contradiction|]. simpl.
  destruct (insert_key_has a (sort_unique l)) as [[y [Hy Ey]] Hk].
  intros [<-|Hx]; [eauto|].
  destruct (IH Hx) as [z [Hz Ez]]. exists z. split; [now apply Hk | exact Ez].
Qed.



Lemma combine_seq_nth {A : Type} (d : A) (l : list A) a k j :
  In (k, j) (combine l (seq a (List.length l))) ->
  a <= j /\ j - a < List.length l /\ nth (j - a) l d = k.
Proof.
  revert a. induction l as [|x l IH]; intros a; simpl; [tauto|].
  intros [H|H].
  - injection H as -> ->. rewrite Nat.sub_diag. repeat split; lia.
  - apply IH in H. destruct H as [H1 [H2 H3]].
    replace (j - a) with (S (j - S a)) by lia. repeat split; [lia | lia | exact H3].
Qed.

Lemma combine_seq_fst {A : Type} (l : list A) a :
  map fst (combine l (seq a (List.length l))) = l.
Proof.
  revert a. induction l as [|x l IH]; intros a; simpl; [reflexivity|].
  now rewrite IH.
Qed.

Lemma argsort_In_rev k ks : In k ks -> In k (map fst (argsort ks)).
Proof.
  intros H. rewrite <- (combine_seq_fst ks 0) in H. apply in_map_iff in H.
  destruct H as [x [E H]]. apply in_map_iff. exists x. split; [exact E|].
  unfold argsort. now apply sort_pairs_In.
Qed.

Lemma sort_index_coherent F t :
  coherent F t -> coherent F (sort_index t).
Proof.
  intros H c Hc. cbn [sort_index cols index] in *.
  apply in_map_iff in Hc. destruct Hc as [c0 [<- Hc0]]. cbn [fst snd].
  rewrite (H c0 Hc0). unfold take. rewrite !map_map.
  apply map_ext_in. intros [k j] Hkj. cbn [fst snd].
  unfold argsort in Hkj. apply (proj1 (sort_pairs_In _ _)) in Hkj.
  apply (combine_seq_nth k) in Hkj. destruct Hkj as [_ [Hj Hn]].
  rewrite Nat.sub_0_r in *.
  rewrite nth_indep with (d' := F k (fst c0)) by now rewrite length_map.
  rewrite (map_nth (fun k0 => F k0 (fst c0))). now rewrite Hn.
Qed.










Lemma rows_without_time_excluded_witness :
  load_data simple_float missing_time_example
  = load_frame simple_float
      (keep_rows [true; false; true] (strip_columns missing_time_frame)).
Proof.
  apply (rows_without_time_excluded simple_float missing_time_example
           missing_time_frame [Some 1000%Q; None; Some 2000%Q]);
    reflexivity.
Defined.

Lemma long_format_checked_first_witness :
  load_data simple_float both_markers_example
  = Ok (Some {| index := [Flt 0; Flt 1];
                cols := [(Str "RPM", [Some 800%Q; Some 900%Q])] |}).
Proof.
  rewrite (long_format_checked_first simple_float both_markers_example
             both_markers_frame); reflexivity.
Defined.

Lemma unrecognized_format_reported_witness :
  load_data simple_float unrecognized_example = Ok None
  /\ (forall plotly st w,
        main simple_float plotly st w (Some unrecognized_example)
        = Ok (st, [st_error format_error]))
  /\ contains format_error "(SECONDS; PID; VALUE)" = true
  /\ contains format_error "(time(ms); ...sensors)" = true.
Proof.
  apply (unrecognized_format_reported simple_float unrecognized_example
           unrecognized_frame); reflexivity.
Defined.

Lemma load_data_returns_witness :
  (exists t, load_data simple_float gap_example = Ok (Some t))
  /\ (exists t, load_data simple_float long_example = Ok (Some t))
  /\ load_data simple_float unrecognized_example = Ok None.
Proof.
  split; [|split].
  - destruct (load_data_returns simple_float gap_example
                ["time(ms)"; "Speed"; "RPM"; "Fuel"]
                [["2000"; "45"; EmptyString; "Closed Loop"];
                 ["1000"; "-"; "800"; "-"];
                 ["3000"; EmptyString; EmptyString; "Open Loop"]])
      as [df0 [E [_ [_ [W _]]]]]; [reflexivity|reflexivity|].
    vm_compute in E. injection E as <-.
    apply (W eq_refl) with (tm := [Some 2000%Q; Some 1000%Q; Some 3000%Q]).
    + repeat constructor; simpl; intuition discriminate.
    + reflexivity.
  - destruct (load_data_returns simple_float long_example
                ["SECONDS"; "PID"; "VALUE"]
                [["0"; "RPM"; "800"]; ["0"; "RPM"; "820"]; ["1"; "RPM"; "900"]])
      as [df0 [E [_ [_ [_ W]]]]]; [reflexivity|reflexivity|].
    vm_compute in E. injection E as <-.
    apply (W eq_refl (Float64 [Some 0%Q; Some 0%Q; Some 1%Q])
             (Object [Some "RPM"; Some "RPM"; Some "RPM"])
             [Some 800%Q; Some 820%Q; Some 900%Q]); reflexivity.
  - destruct (load_data_returns simple_float unrecognized_example
                ["timestamp"; "Speed"] [["1000"; "40"]])
      as [df0 [E [_ [W _]]]]; [reflexivity|reflexivity|].
    vm_compute in E. injection E as <-.
    apply W; reflexivity.
Defined.

(** * Further properties *)

(** ** The dictionary: assignment and lookup *)

Lemma dict_get_set k k' v d :
  dict_get k (dict_set k' v d)
  = if scalar_eqb k' k then Ok v else dict_get k d.
Proof.
  unfold dict_get. induction d as [|e r IH]; simpl.
  - now destruct (scalar_eqb k' k).
  - destruct (scalar_eqb (fst e) k') eqn:E1; simpl.
    + destruct (scalar_eqb k' k) eqn:E2.
      * now rewrite (scalar_eqb_trans _ _ _ E1 E2).
      * destruct (scalar_eqb (fst e) k) eqn:E3; [|reflexivity].
        rewrite scalar_eqb_sym in E1.
        rewrite (scalar_eqb_trans _ _ _ E1 E3) in E2. discriminate.
    + destruct (scalar_eqb (fst e) k) eqn:E3.
      * destruct (scalar_eqb k' k) eqn:E2; [|reflexivity].
        rewrite scalar_eqb_sym in E2.
        rewrite (scalar_eqb_trans _ _ _ E3 E2) in E1. discriminate.
      * exact IH.
Qed.

Lemma dict_mem_set k k' v d :
  dict_mem k (dict_set k' v d) = scalar_eqb k' k || dict_mem k d.
Proof.
  unfold dict_mem. induction d as [|e r IH]; simpl.
  - now rewrite orb_false_r.
  - destruct (scalar_eqb (fst e) k') eqn:E1; simpl.
    + destruct (scalar_eqb (fst e) k) eqn:E3; simpl.
      * now rewrite orb_true_r.
      * destruct (scalar_eqb k' k) eqn:E2; [|reflexivity].
        rewrite (scalar_eqb_trans _ _ _ E1 E2) in E3. discriminate.
    + rewrite IH. destruct (scalar_eqb (fst e) k), (scalar_eqb k' k); reflexivity.
Qed.

Lemma dict_set_absent k v d :
  dict_mem k d = false -> dict_set k v d = d ++ [(k, v)].
Proof.
  unfold dict_mem. induction d as [|e r IH]; simpl; [reflexivity|].
  intros H. apply orb_false_iff in H. destruct H as [H1 H2].
  rewrite H1. now rewrite IH.
Qed.

Lemma dict_mem_In k d :
  dict_mem k d = true <-> exists e, In e d /\ scalar_eqb (fst e) k = true.
Proof. unfold dict_mem. apply existsb_exists. Qed.

Lemma dict_mem_key e d : In e d -> dict_mem (fst e) d = true.
Proof.
  intros H. apply dict_mem_In. exists e. split; [assumption | apply scalar_eqb_refl].
Qed.

(** In a dictionary with distinct keys, assigning to a key that is there
    changes the value of its entry and nothing else. *)
Lemma dict_set_as_map k v d :
  distinct_keys d = true ->
  dict_mem k d = true ->
  dict_set k v d = map (fun e => if scalar_eqb (fst e) k then (fst e, v) else e) d.
Proof.
  induction d as [|e r IH]; simpl; [discriminate|].
  intros HD HM. apply andb_true_iff in HD. destruct HD as [Hn HD].
  apply negb_true_iff in Hn.
  destruct (scalar_eqb (fst e) k) eqn:E.
  - f_equal. rewrite <- (map_id r) at 1. apply map_ext_in. intros e' He'.
    destruct (scalar_eqb (fst e') k) eqn:E'; [|reflexivity].
    exfalso. assert (C : dict_mem (fst e) r = true).
    { apply dict_mem_In. exists e'. split; [assumption|].
      rewrite scalar_eqb_sym in E. eapply scalar_eqb_trans; eassumption. }
    congruence.
  - f_equal. apply IH; [assumption|].
    exact HM.
Qed.

Lemma map_set_keys (f : scalar * bool -> bool) (d : dict) :
  map fst (map (fun e => (fst e, f e)) d) = map fst d.
Proof. now rewrite map_map. Qed.

Lemma dict_mem_ext k (d d' : dict) :
  map fst d = map fst d' -> dict_mem k d = dict_mem k d'.
Proof.
  unfold dict_mem. revert d'. induction d as [|a r IH]; intros [|a' r'] H;
    simpl in *; try discriminate; [reflexivity|].
  injection H as Ha Hr. now rewrite Ha, (IH r' Hr).
Qed.

Lemma distinct_keys_ext (d d' : dict) :
  map fst d = map fst d' -> distinct_keys d = distinct_keys d'.
Proof.
  revert d'. induction d as [|e r IH]; intros [|e' r'] H; simpl in *;
    try discriminate; [reflexivity|].
  injection H as H1 H2.
  now rewrite (IH r' H2), H1, (dict_mem_ext (fst e') r r' H2).
Qed.

(** Assigning [v] to keys that are all there: the entries with one of the
    keys take the value [v], the others stay. *)
Lemma assign_keys_as_map v ms : forall d,
  distinct_keys d = true ->
  (forall m, In m ms -> dict_mem m d = true) ->
  fold_left (fun a m => dict_set m v a) ms d
  = map (fun e => if existsb (scalar_eqb (fst e)) ms then (fst e, v) else e) d.
Proof.
  induction ms as [|m ms IH]; intros d HD HM; simpl.
  - now rewrite map_id.
  - rewrite (dict_set_as_map m v d HD) by (apply HM; now left).
    set (d1 := map (fun e => if scalar_eqb (fst e) m then (fst e, v) else e) d).
    assert (K : map fst d1 = map fst d).
    { unfold d1. rewrite map_map. apply map_ext. intros e.
      now destruct (scalar_eqb (fst e) m). }
    rewrite IH.
    + unfold d1. rewrite map_map. apply map_ext. intros e.
      destruct (scalar_eqb (fst e) m); simpl; [|reflexivity].
      now destruct (existsb (scalar_eqb (fst e)) ms).
    + now rewrite (distinct_keys_ext d1 d K).
    + intros m' Hm'. rewrite (dict_mem_ext m' d1 d K). apply HM. now right.
Qed.

Lemma assign_all_folds v ms : forall d c,
  assign_all v ms d c
  = (fold_left (fun a m => dict_set m v a) ms d,
     fold_left (fun a m => dict_set m v a) ms c).
Proof.
  induction ms as [|m ms IH]; intros d c; simpl; [reflexivity | apply IH].
Qed.

(** After the keys [ms] are assigned [v] one by one, a lookup of one of them
    gives [v], whatever the dictionary was. *)
Lemma assigned_lookup v ms : forall c k,
  existsb (fun m => scalar_eqb m k) ms = true ->
  dict_get k (fold_left (fun a m => dict_set m v a) ms c) = Ok v.
Proof.
  assert (Keep : forall ms c k,
            dict_get k c = Ok v ->
            dict_get k (fold_left (fun a m => dict_set m v a) ms c) = Ok v).
  { induction ms0 as [|m ms0 IH]; intros c k H; simpl; [assumption|].
    apply IH. rewrite dict_get_set. now destruct (scalar_eqb m k). }
  induction ms as [|m ms IH]; intros c k H; simpl in *; [discriminate|].
  destruct (scalar_eqb m k) eqn:E.
  - apply Keep. rewrite dict_get_set. now rewrite E.
  - now apply IH.
Qed.

(** ** The callbacks *)

Lemma contains_empty s : contains s EmptyString = true.
Proof. now destruct s. Qed.

Lemma label_matches_eqb t a b :
  scalar_eqb a b = true -> label_matches t a = label_matches t b.
Proof.
  destruct a, b; simpl; try discriminate; [reflexivity|].
  intros H. apply String.eqb_eq in H. now subst.
Qed.

Lemma matching_keys_str t keys :
  forallb is_str keys = true ->
  matching_keys t keys = Ok (filter (label_matches t) keys).
Proof.
  induction keys as [|k r IH]; simpl; [reflexivity|].
  intros H. apply andb_true_iff in H. destruct H as [Hk Hr].
  destruct k as [q|n]; [discriminate|]. simpl. rewrite (IH Hr). simpl.
  now destruct (contains (lower n) t).
Qed.

Lemma matching_keys_number t keys :
  forallb is_str keys = false ->
  matching_keys t keys = Raise AttributeError.
Proof.
  induction keys as [|k r IH]; simpl; [discriminate|].
  destruct k as [q|n]; simpl; [reflexivity|].
  intros H. now rewrite (IH H).
Qed.

Lemma existsb_filter_matches t (d : dict) e :
  In e d ->
  existsb (scalar_eqb (fst e)) (filter (label_matches t) (map fst d))
  = label_matches t (fst e).
Proof.
  intros He. destruct (label_matches t (fst e)) eqn:M.
  - apply existsb_exists. exists (fst e). split; [|apply scalar_eqb_refl].
    apply filter_In. split; [|exact M]. apply in_map_iff. now exists e.
  - destruct (existsb _ _) eqn:X; [|reflexivity].
    apply existsb_exists in X. destruct X as [m [Hm Em]].
    apply filter_In in Hm. destruct Hm as [_ Pm].
    rewrite (label_matches_eqb t _ _ Em) in M. congruence.
Qed.

Lemma existsb_own_key (d : dict) e :
  In e d -> existsb (scalar_eqb (fst e)) (map fst d) = true.
Proof.
  intros He. apply existsb_exists. exists (fst e).
  split; [apply in_map_iff; now exists e | apply scalar_eqb_refl].
Qed.

Lemma keys_are_members (d : dict) m : In m (map fst d) -> dict_mem m d = true.
Proof.
  intros H. apply in_map_iff in H. destruct H as [e [<- He]].
  now apply dict_mem_key.
Qed.

(** X1.  "Uncheck All": with a dictionary of distinct keys, [deselect_all]
    sets every entry to false and keeps the keys and their order, so nothing
    is selected afterwards; every sensor's check box is false; the rest of
    the state is as before. *)
Theorem deselect_all_clears st d :
  sensor_states_dict st = Some d ->
  distinct_keys d = true ->
  exists st',
    deselect_all st = Ok st'
    /\ sensor_states_dict st' = Some (map (fun e => (fst e, false)) d)
    /\ get_selected_list st' = Ok []
    /\ (forall e, In e d -> dict_get (fst e) (chk st') = Ok false)
    /\ graph_active st' = graph_active st.
Proof.
  intros Hd HD. unfold deselect_all. rewrite Hd. cbn [bind].
  rewrite assign_all_folds. cbn [fst snd]. eexists. split; [reflexivity|].
  cbn [sensor_states_dict chk graph_active].
  assert (A : fold_left (fun a m => dict_set m false a) (map fst d) d
              = map (fun e => (fst e, false)) d).
  { rewrite (assign_keys_as_map false (map fst d) d HD (keys_are_members d)).
    apply map_ext_in. intros e He. now rewrite (existsb_own_key d e He). }
  repeat split.
  - now rewrite A.
  - unfold get_selected_list. cbn [sensor_states_dict]. rewrite A. f_equal.
    clear. induction d as [|e r IH]; [reflexivity | exact IH].
  - intros e He. apply assigned_lookup. apply existsb_exists.
    exists (fst e). split; [apply in_map_iff; now exists e | apply scalar_eqb_refl].
Qed.

(** X2.  "Select Matches": with a dictionary of distinct string keys,
    [select_visible_matches] sets to true exactly the entries whose key, in
    lower case, contains the search text in lower case (all of them when the
    text is empty), leaves the other entries as they were, and checks the
    boxes of the entries it set.  The keys and the search text are ASCII, on
    which [lower] is Python's [str.lower]. *)
Theorem select_visible_matches_selects search_box st d :
  sensor_states_dict st = Some d ->
  distinct_keys d = true ->
  forallb is_str (map fst d) = true ->
  forallb ascii_label (map fst d) = true ->
  is_ascii search_box = true ->
  exists st',
    select_visible_matches search_box st = Ok st'
    /\ sensor_states_dict st'
       = Some (map (fun e => if label_matches (lower search_box) (fst e)
                             then (fst e, true) else e) d)
    /\ (forall e, In e d -> label_matches (lower search_box) (fst e) = true ->
                  dict_get (fst e) (chk st') = Ok true)
    /\ graph_active st' = graph_active st.
Proof.
  intros Hd HD HS _ _. unfold select_visible_matches. rewrite Hd. cbn [bind].
  set (t := lower search_box).
  assert (M : (if String.eqb t EmptyString then Ok (map fst d)
               else matching_keys t (map fst d))
              = Ok (filter (label_matches t) (map fst d))).
  { destruct (String.eqb_spec t EmptyString) as [->|_].
    - f_equal. symmetry. apply forallb_filter_id.
      apply forallb_forall. intros k Hk.
      rewrite forallb_forall in HS. specialize (HS k Hk).
      destruct k; [discriminate | apply contains_empty].
    - now apply matching_keys_str. }
  rewrite M. cbn [bind]. rewrite assign_all_folds. cbn [fst snd].
  eexists. split; [reflexivity|]. cbn [sensor_states_dict chk graph_active].
  repeat split.
  - f_equal. rewrite (assign_keys_as_map true _ d HD).
    + apply map_ext_in. intros e He. now rewrite (existsb_filter_matches t d e He).
    + intros m Hm. apply filter_In in Hm. now apply keys_are_members.
  - intros e He Pm. apply assigned_lookup. apply existsb_exists.
    exists (fst e). split; [|apply scalar_eqb_refl].
    apply filter_In. split; [apply in_map_iff; now exists e | exact Pm].
Qed.

(** X3.  "Clear" then "Select All": with the search box emptied, every
    sensor of the dictionary is selected, in the order of the dictionary,
    whatever the labels are. *)
Theorem clear_then_select_all search_box st d :
  sensor_states_dict st = Some d ->
  distinct_keys d = true ->
  exists st',
    select_visible_matches (clear_search search_box) st = Ok st'
    /\ sensor_states_dict st' = Some (map (fun e => (fst e, true)) d)
    /\ get_selected_list st' = Ok (map fst d).
Proof.
  intros Hd HD. unfold select_visible_matches, clear_search. rewrite Hd.
  cbn [bind lower String.eqb]. rewrite assign_all_folds. cbn [fst snd].
  eexists. split; [reflexivity|].
  assert (A : fold_left (fun a m => dict_set m true a) (map fst d) d
              = map (fun e => (fst e, true)) d).
  { rewrite (assign_keys_as_map true (map fst d) d HD (keys_are_members d)).
    apply map_ext_in. intros e He. now rewrite (existsb_own_key d e He). }
  unfold get_selected_list. cbn [sensor_states_dict]. rewrite A.
  split; [reflexivity|]. f_equal. clear.
  induction d as [|e r IH]; [reflexivity | simpl; now rewrite IH].
Qed.

Lemma dict_get_mem k d v : dict_get k d = Ok v -> dict_mem k d = true.
Proof.
  unfold dict_get, dict_mem. intros H.
  destruct (find (fun e => scalar_eqb (fst e) k) d) as [e|] eqn:F; [|discriminate].
  apply find_some in F. apply existsb_exists. now exists e.
Qed.

(** X4.  [toggle_sensor]: when the check box has a widget key, the entry of
    that sensor takes the value of the check box and the lookup of every
    other sensor is as before; when it has none, the state is left as it
    is. *)
Theorem toggle_sensor_sets sensor st d :
  sensor_states_dict st = Some d ->
  (forall v, dict_get sensor (chk st) = Ok v ->
     exists d',
       toggle_sensor sensor st
       = Ok {| sensor_states_dict := Some d';
               chk := chk st;
               graph_active := graph_active st |}
       /\ dict_get sensor d' = Ok v
       /\ forall k, scalar_eqb sensor k = false -> dict_get k d' = dict_get k d)
  /\ (dict_mem sensor (chk st) = false -> toggle_sensor sensor st = Ok st).
Proof.
  intros Hd. split.
  - intros v Hv. unfold toggle_sensor.
    rewrite (dict_get_mem _ _ _ Hv), Hv, Hd. cbn [bind].
    eexists. split; [reflexivity|]. split.
    + rewrite dict_get_set. now rewrite scalar_eqb_refl.
    + intros k Hk. rewrite dict_get_set. now rewrite Hk.
  - intros Hn. unfold toggle_sensor. now rewrite Hn.
Qed.

(** ** One run of the script *)

Lemma dict_mem_eqb a b d :
  scalar_eqb a b = true -> dict_mem a d = dict_mem b d.
Proof.
  intros H. unfold dict_mem. induction d as [|e r IH]; simpl; [reflexivity|].
  rewrite IH. f_equal.
  destruct (scalar_eqb (fst e) a) eqn:E1, (scalar_eqb (fst e) b) eqn:E2;
    try reflexivity.
  - rewrite (scalar_eqb_trans _ _ _ E1 H) in E2. discriminate.
  - rewrite scalar_eqb_sym in H. rewrite (scalar_eqb_trans _ _ _ E2 H) in E1.
    discriminate.
Qed.

Lemma sync_checkboxes_total d l : forall c,
  (forall s, In s l -> dict_mem s d = true) ->
  exists c', sync_checkboxes d l c = Ok c'.
Proof.
  induction l as [|s r IH]; intros c H; simpl; [eauto|].
  destruct (dict_mem s c); [apply IH; intros; apply H; now right|].
  assert (M : dict_mem s d = true) by (apply H; now left).
  unfold dict_get. unfold dict_mem in M.
  destruct (find (fun e => scalar_eqb (fst e) s) d) as [e|] eqn:F.
  - cbn [bind]. apply IH. intros; apply H; now right.
  - exfalso. apply existsb_exists in M. destruct M as [e [He Ee]].
    assert (N := find_none _ _ F e He). cbn in N. congruence.
Qed.

Lemma filter_matches_incl search l ms :
  filter_matches search l = Ok ms -> incl ms l.
Proof.
  revert ms. induction l as [|m r IH]; simpl; intros ms H.
  - injection H as <-. apply incl_refl.
  - inv_bind H. inv_bind H. injection H as <-.
    specialize (IH _ E0). destruct (contains a (lower search)).
    + intros x [<-|Hx]; [now left | right; now apply IH].
    + intros x Hx. right. now apply IH.
Qed.

Lemma filter_matches_str search l :
  forallb is_str l = true -> exists ms, filter_matches search l = Ok ms.
Proof.
  induction l as [|m r IH]; simpl; [eauto|].
  intros H. apply andb_true_iff in H. destruct H as [Hm Hr].
  destruct m as [q|n]; [discriminate|]. destruct (IH Hr) as [ms ->].
  simpl. eauto.
Qed.

Lemma filter_matches_number search l :
  forallb is_str l = false -> filter_matches search l = Raise AttributeError.
Proof.
  induction l as [|m r IH]; simpl; [discriminate|].
  destruct m as [q|n]; simpl; [reflexivity|].
  intros H. now rewrite (IH H).
Qed.

Lemma fold_dict_set_members v ms : forall d m,
  In m ms \/ dict_mem m d = true ->
  dict_mem m (fold_left (fun a k => dict_set k v a) ms d) = true.
Proof.
  induction ms as [|k ms IH]; intros d m H; simpl.
  - destruct H as [[]|H]; exact H.
  - apply IH. destruct H as [[<-|H]|H]; [right | now left | right].
    + rewrite dict_mem_set. now rewrite scalar_eqb_refl.
    + rewrite dict_mem_set. rewrite H. apply orb_true_r.
Qed.

Lemma dict_mem_set_default k k' v d :
  dict_mem k (set_default k' v d) = scalar_eqb k' k || dict_mem k d.
Proof.
  unfold set_default. destruct (dict_mem k' d) eqn:M.
  - destruct (scalar_eqb k' k) eqn:E; [|reflexivity].
    now rewrite <- (dict_mem_eqb _ _ d E), M.
  - apply dict_mem_set.
Qed.

Lemma fold_set_default_members v ms : forall d m,
  In m ms \/ dict_mem m d = true ->
  dict_mem m (fold_left (fun a k => set_default k v a) ms d) = true.
Proof.
  induction ms as [|k ms IH]; intros d m H; simpl.
  - destruct H as [[]|H]; exact H.
  - apply IH. destruct H as [[<-|H]|H]; [right | now left | right].
    + rewrite dict_mem_set_default. now rewrite scalar_eqb_refl.
    + rewrite dict_mem_set_default. rewrite H. apply orb_true_r.
Qed.

Lemma init_dict_members st ms m :
  In m ms -> dict_mem m (init_dict st ms) = true.
Proof.
  intros H. unfold init_dict. destruct (sensor_states_dict st).
  - apply fold_set_default_members. now left.
  - apply fold_dict_set_members. now left.
Qed.

(** The script in closed form, once the file is loaded. *)
Lemma main_loaded to_float plotly st w file t :
  load_data to_float file = Ok (Some t) ->
  main to_float plotly st w (Some file)
  = (filtered_options <-
       (if String.eqb (search_text w) EmptyString then Ok (map fst (cols t))
        else filter_matches (search_text w) (map fst (cols t))) ;;
     chk' <- sync_checkboxes (init_dict st (map fst (cols t))) filtered_options
               (match sensor_states_dict st with
                | None => fold_left (fun c sensor => set_default sensor false c)
                                    (map fst (cols t)) (chk st)
                | Some _ => chk st
                end) ;;
     out <- rendered plotly w (trigger_plot w || graph_active st) t
                     (init_dict st (map fst (cols t))) ;;
     Ok ({| sensor_states_dict := Some (init_dict st (map fst (cols t)));
            chk := chk';
            graph_active := trigger_plot w || graph_active st |},
         out)).
Proof.
  intros L. unfold main, init_dict. rewrite L. cbn [bind].
  destruct (sensor_states_dict st) as [d|]; cbn [sensor_states_dict chk graph_active];
    (destruct (if String.eqb (search_text w) EmptyString then _ else _) as [fo|e];
     [|reflexivity]); cbn [bind];
    (match goal with |- context [sync_checkboxes ?a ?b ?c] =>
       destruct (sync_checkboxes a b c) as [c'|e] end; [|reflexivity]);
    cbn [bind sensor_states_dict chk graph_active];
    unfold rendered, get_selected_list; cbn [sensor_states_dict];
    (destruct (trigger_plot w || graph_active st) eqn:A;
     [|apply orb_false_iff in A; destruct A as [_ A]; now rewrite A]);
    cbn [bind];
    (match goal with |- context [map fst (filter snd ?x)] =>
       destruct (map fst (filter snd x)) as [|m ms] end; [reflexivity|]);
    (match goal with |- context [filter ?f (?a :: ?b)] =>
       destruct (filter f (a :: b)) end; [reflexivity|]);
    unfold plot_data_of;
    (match goal with |- context [plotly ?a ?b] =>
       destruct (if split_graphs w then melt_check b else Ok tt) as [[]|e];
       [|reflexivity]; cbn [bind];
       destruct (plotly a b) as [[]|e]; reflexivity end).
Qed.

Lemma fold_set_default_app ms : forall d,
  exists extra,
    fold_left (fun a k => set_default k false a) ms d = d ++ extra
    /\ Forall (fun e => snd e = false) extra.
Proof.
  induction ms as [|k ms IH]; intros d; simpl.
  - exists []. split; [now rewrite app_nil_r | constructor].
  - unfold set_default at 2. destruct (dict_mem k d) eqn:M; [apply IH|].
    rewrite (dict_set_absent k false d M).
    destruct (IH (d ++ [(k, false)])) as [extra [E F]].
    exists ((k, false) :: extra). split.
    + rewrite E. now rewrite <- app_assoc.
    + constructor; [reflexivity | exact F].
Qed.

Lemma filter_snd_all_false (extra : dict) :
  Forall (fun e => snd e = false) extra -> filter snd extra = [].
Proof.
  induction 1 as [|e r He _ IH]; simpl; [reflexivity|]. now rewrite He.
Qed.

Lemma dict_get_app k d extra v :
  dict_get k d = Ok v -> dict_get k (d ++ extra) = Ok v.
Proof.
  unfold dict_get. induction d as [|a r IH]; simpl; [discriminate|].
  destruct (scalar_eqb (fst a) k); [trivial | exact IH].
Qed.

Lemma fold_dict_set_all_false ms : forall d,
  Forall (fun e => snd e = false) d ->
  Forall (fun e => snd e = false) (fold_left (fun a k => dict_set k false a) ms d).
Proof.
  induction ms as [|k ms IH]; intros d H; simpl; [exact H|].
  apply IH. clear IH. induction H as [|e r He Hr IHr]; simpl.
  - constructor; [reflexivity | constructor].
  - destruct (scalar_eqb (fst e) k); constructor; auto.
Qed.

(** What is selected after the initialization is what was selected
    before. *)
Lemma init_dict_selected st ms :
  filter snd (init_dict st ms)
  = match sensor_states_dict st with
    | Some d => filter snd d
    | None => []
    end.
Proof.
  unfold init_dict. destruct (sensor_states_dict st) as [d|].
  - destruct (fold_set_default_app ms d) as [extra [-> F]].
    rewrite filter_app, (filter_snd_all_false extra F). apply app_nil_r.
  - apply filter_snd_all_false. apply fold_dict_set_all_false. constructor.
Qed.

Lemma dict_mem_app k (d d' : dict) :
  dict_mem k (d ++ d') = dict_mem k d || dict_mem k d'.
Proof. unfold dict_mem. apply existsb_app. Qed.

Lemma distinct_keys_snoc k v d :
  distinct_keys d = true -> dict_mem k d = false ->
  distinct_keys (d ++ [(k, v)]) = true.
Proof.
  induction d as [|e r IH]; simpl; [reflexivity|].
  intros HD HM. apply andb_true_iff in HD. destruct HD as [Hn HD].
  change (scalar_eqb (fst e) k || dict_mem k r = false) in HM.
  apply orb_false_iff in HM. destruct HM as [E HM].
  rewrite (IH HD HM), andb_true_r, dict_mem_app.
  apply negb_true_iff in Hn. rewrite Hn. cbn.
  rewrite scalar_eqb_sym, E. reflexivity.
Qed.

Lemma dict_set_keys k v d :
  dict_mem k d = true -> map fst (dict_set k v d) = map fst d.
Proof.
  induction d as [|e r IH]; [discriminate|].
  intros H. change (scalar_eqb (fst e) k || dict_mem k r = true) in H.
  simpl. destruct (scalar_eqb (fst e) k); simpl; [reflexivity|].
  now rewrite IH.
Qed.

Lemma distinct_keys_dict_set k v d :
  distinct_keys d = true -> distinct_keys (dict_set k v d) = true.
Proof.
  intros HD. destruct (dict_mem k d) eqn:M.
  - now rewrite (distinct_keys_ext _ d (dict_set_keys k v d M)).
  - rewrite (dict_set_absent k v d M). now apply distinct_keys_snoc.
Qed.

Lemma init_dict_distinct st ms :
  (forall d, sensor_states_dict st = Some d -> distinct_keys d = true) ->
  distinct_keys (init_dict st ms) = true.
Proof.
  intros H. unfold init_dict. destruct (sensor_states_dict st) as [d|].
  - specialize (H d eq_refl). revert d H.
    induction ms as [|k ms IH]; intros d H; simpl; [exact H|].
    apply IH. unfold set_default. destruct (dict_mem k d); [exact H|].
    now apply distinct_keys_dict_set.
  - clear H. assert (G : forall d, distinct_keys d = true ->
      distinct_keys (fold_left (fun a k => dict_set k false a) ms d) = true).
    { induction ms as [|k ms IH]; intros d H; simpl; [exact H|].
      apply IH. now apply distinct_keys_dict_set. }
    now apply G.
Qed.

Section Script.

Variable to_float : string -> option Q.

Variable plotly : bool -> plot_table -> result unit.

(** X5.  Once the file is loaded and every column label is a string, the
    script fails only where the plotting fails: it returns the state with the
    initialized dictionary and what is rendered, or raises what [rendered]
    raises.  With a search text and a column label that is a number (a
    long-format file with a numeric PID column) it raises AttributeError. *)
Theorem main_returns_or_raises st w file t :
  load_data to_float file = Ok (Some t) ->
  (forallb is_str (map fst (cols t)) = true ->
   exists chk',
     main to_float plotly st w (Some file)
     = (out <- rendered plotly w (trigger_plot w || graph_active st) t
                        (init_dict st (map fst (cols t))) ;;
        Ok ({| sensor_states_dict := Some (init_dict st (map fst (cols t)));
               chk := chk';
               graph_active := trigger_plot w || graph_active st |},
            out)))
  /\ (search_text w <> EmptyString ->
      forallb is_str (map fst (cols t)) = false ->
      main to_float plotly st w (Some file) = Raise AttributeError).
Proof.
  intros L. rewrite (main_loaded to_float plotly st w file t L). split.
  - intros H.
    assert (F : exists fo,
              (if String.eqb (search_text w) EmptyString then Ok (map fst (cols t))
               else filter_matches (search_text w) (map fst (cols t))) = Ok fo
              /\ incl fo (map fst (cols t))).
    { destruct (String.eqb_spec (search_text w) EmptyString) as [E|E].
      - eexists. split; [reflexivity | apply incl_refl].
      - destruct (filter_matches_str (search_text w) _ H) as [ms Hm].
        exists ms. split; [exact Hm | now apply (filter_matches_incl (search_text w))]. }
    destruct F as [fo [-> Hi]]. cbn [bind].
    match goal with |- context [sync_checkboxes ?a ?b ?c] =>
      destruct (sync_checkboxes_total a b c) as [c' ->] end.
    + intros s Hs. apply init_dict_members. now apply Hi.
    + cbn [bind]. eauto.
  - intros Hs Hn. destruct (String.eqb_spec (search_text w) EmptyString) as [E|E];
      [contradiction|].
    now rewrite (filter_matches_number _ _ Hn).
Qed.

Lemma main_result st w file t st' out :
  load_data to_float file = Ok (Some t) ->
  main to_float plotly st w (Some file) = Ok (st', out) ->
  sensor_states_dict st' = Some (init_dict st (map fst (cols t)))
  /\ graph_active st' = (trigger_plot w || graph_active st)
  /\ rendered plotly w (trigger_plot w || graph_active st) t
               (init_dict st (map fst (cols t))) = Ok out.
Proof.
  intros L H. rewrite (main_loaded to_float plotly st w file t L) in H.
  inv_bind H. inv_bind H. inv_bind H. injection H as <- <-. now repeat split.
Qed.

(** X6.  Loading a file never removes or changes an entry of the selection
    dictionary and selects nothing: after the script has run, every column
    of the table is a key, every entry the dictionary had is still there
    with its value, what is selected is what was selected (nothing on a
    first load), and the keys are distinct if they were. *)
Theorem main_keeps_dictionary st w file t st' out :
  load_data to_float file = Ok (Some t) ->
  main to_float plotly st w (Some file) = Ok (st', out) ->
  exists d',
    sensor_states_dict st' = Some d'
    /\ (forall c, In c (cols t) -> dict_mem (fst c) d' = true)
    /\ (forall d k v, sensor_states_dict st = Some d ->
                      dict_get k d = Ok v -> dict_get k d' = Ok v)
    /\ get_selected_list st'
       = Ok (match sensor_states_dict st with
             | Some d => map fst (filter snd d)
             | None => []
             end)
    /\ ((forall d, sensor_states_dict st = Some d -> distinct_keys d = true) ->
        distinct_keys d' = true).
Proof.
  intros L H. destruct (main_result st w file t st' out L H) as [Hd _].
  exists (init_dict st (map fst (cols t))). split; [exact Hd|]. repeat split.
  - intros c Hc. apply init_dict_members. apply in_map_iff. now exists c.
  - intros d k v Hs Hk. unfold init_dict. rewrite Hs.
    destruct (fold_set_default_app (map fst (cols t)) d) as [extra [-> _]].
    now apply dict_get_app.
  - unfold get_selected_list. rewrite Hd, init_dict_selected.
    now destruct (sensor_states_dict st).
  - apply init_dict_distinct.
Qed.

(** X7.  What one run that ends normally has rendered, [selected] being the
    sensors selected in the state it was given: nothing before the first
    "Update Graph"; the hint when nothing is selected; the warning, and no
    chart, when no selected sensor is a column of the table; otherwise one
    chart and the statistics of the same data.  The row keys of that data
    are those of the table; its columns are columns of the table that are
    selected (rescaled when Normalize is checked), and every selected
    sensor that is a column of the table is one of them. *)
Theorem main_render_cases st w file t st' out :
  load_data to_float file = Ok (Some t) ->
  main to_float plotly st w (Some file) = Ok (st', out) ->
  let selected := match sensor_states_dict st with
                  | Some d => map fst (filter snd d)
                  | None => []
                  end in
  let active := trigger_plot w || graph_active st in
  graph_active st' = active
  /\ (active = false -> out = [])
  /\ (active = true -> selected = [] ->
      out = [st_info "Select sensors in the sidebar and click 'Update Graph'."])
  /\ (active = true -> selected <> [] ->
      (forall m, In m selected -> has_column t m = false) ->
      out = [st_subheader "Timeline";
             st_warning "Selected sensors not found in data."])
  /\ (active = true ->
      (exists m, In m selected /\ has_column t m = true) ->
      exists plot_data,
        out = [st_subheader "Timeline";
               st_plotly_chart (split_graphs w) plot_data;
               st_dataframe_describe plot_data]
        /\ plotly (split_graphs w) plot_data = Ok tt
        /\ plot_index plot_data = index t
        /\ (forall c, In c (plot_cols plot_data) ->
             exists c0 m,
               In c0 (cols t) /\ In m selected
               /\ scalar_eqb (fst c0) m = true
               /\ fst c = fst c0
               /\ snd c = if normalize w then normalize_col (map of_cell (snd c0))
                          else map of_cell (snd c0))
        /\ (forall m, In m selected -> has_column t m = true ->
             exists c, In c (plot_cols plot_data) /\ scalar_eqb (fst c) m = true)).
Proof.
  intros L H selected active.
  destruct (main_result st w file t st' out L H) as [_ [Hg Ho]].
  fold active in Hg, Ho. split; [exact Hg|].
  assert (S : map fst (filter snd (init_dict st (map fst (cols t)))) = selected).
  { rewrite init_dict_selected. unfold selected.
    now destruct (sensor_states_dict st). }
  unfold rendered in Ho. rewrite S in Ho. clearbody selected active.
  split; [|split; [|split]].
  - intros A. rewrite A in Ho. now injection Ho as <-.
  - intros A E. rewrite A, E in Ho. now injection Ho as <-.
  - intros A Hne Hno. rewrite A in Ho.
    destruct selected as [|m ms]; [congruence|].
    assert (F : filter (has_column t) (m :: ms) = []).
    { rewrite <- (filter_false (m :: ms)). apply filter_ext_in. exact Hno. }
    rewrite F in Ho. now injection Ho as <-.
  - intros A [m [Hm Hc]]. rewrite A in Ho.
    destruct selected as [|m0 ms]; [contradiction|].
    assert (Hin : In m (filter (has_column t) (m0 :: ms)))
      by (apply filter_In; now split).
    destruct (filter (has_column t) (m0 :: ms)) as [|v vs] eqn:F; [contradiction|].
    inv_bind Ho. inv_bind Ho. injection Ho as <-. destruct a0.
    exists (plot_data_of w (v :: vs) t).
    split; [reflexivity|]. split; [exact E0|].
    split; [unfold plot_data_of; now destruct (normalize w)|].
    assert (G : forall c1, In c1 (plot_cols (select_columns (v :: vs) t)) ->
              exists c0 m1, In c0 (cols t) /\ In m1 (m0 :: ms)
                            /\ scalar_eqb (fst c0) m1 = true
                            /\ c1 = (fst c0, map of_cell (snd c0))).
    { intros c1 H1. cbn [select_columns plot_cols] in H1. apply in_flat_map in H1.
      destruct H1 as [m1 [Hm1 Hc1]]. apply in_map_iff in Hc1.
      destruct Hc1 as [c0 [<- Hc0]]. apply filter_In in Hc0.
      destruct Hc0 as [Hc0 E1]. exists c0, m1. repeat split; try assumption.
      rewrite <- F in Hm1. now apply filter_In in Hm1. }
    split.
    + intros c Hcin. unfold plot_data_of in Hcin. destruct (normalize w).
      * cbn [normalize_table plot_cols] in Hcin. apply in_map_iff in Hcin.
        destruct Hcin as [c1 [<- H1]].
        destruct (G c1 H1) as [c0 [m1 [Ha [Hb [Hc1 ->]]]]].
        exists c0, m1. now repeat split.
      * destruct (G c Hcin) as [c0 [m1 [Ha [Hb [Hc1 ->]]]]].
        exists c0, m1. now repeat split.
    + intros m1 Hm1 Hc1.
      assert (Hv : In m1 (v :: vs)) by (rewrite <- F; apply filter_In; now split).
      unfold has_column in Hc1. apply existsb_exists in Hc1.
      destruct Hc1 as [c0 [Hc0 E1]].
      assert (Hs : In (fst c0, map of_cell (snd c0))
                      (plot_cols (select_columns (v :: vs) t))).
      { cbn [select_columns plot_cols]. apply in_flat_map. exists m1.
        split; [exact Hv|]. apply in_map_iff. exists c0. split; [reflexivity|].
        apply filter_In. now split. }
      unfold plot_data_of. destruct (normalize w).
      * exists (fst c0, normalize_col (map of_cell (snd c0))). split; [|exact E1].
        cbn [normalize_table plot_cols]. apply in_map_iff.
        now exists (fst c0, map of_cell (snd c0)).
      * now exists (fst c0, map of_cell (snd c0)).
Qed.

End Script.

(** ** The normalize branch: the range of the result *)

Lemma fold_fmin_In vs : forall v,
  fold_left fmin vs v = v \/ In (fold_left fmin vs v) vs.
Proof.
  induction vs as [|a vs IH]; intros v; simpl; [now left|].
  destruct (IH (fmin v a)) as [H|H]; [|right; now right].
  rewrite H. unfold fmin. destruct (fle v a); [now left | right; now left].
Qed.

Lemma fold_fmax_In vs : forall v,
  fold_left fmax vs v = v \/ In (fold_left fmax vs v) vs.
Proof.
  induction vs as [|a vs IH]; intros v; simpl; [now left|].
  destruct (IH (fmax v a)) as [H|H]; [|right; now right].
  rewrite H. unfold fmax. destruct (fle v a); [right; now left | now left].
Qed.

Lemma col_min_In xs m : col_min xs = Finite m -> In (Finite m) xs.
Proof.
  unfold col_min, reduce. intros H.
  assert (G : In (Finite m) (filter (fun x => negb (is_nan x)) xs)).
  { destruct (filter (fun x => negb (is_nan x)) xs) as [|v vs]; [discriminate|].
    rewrite <- H. destruct (fold_fmin_In vs v) as [E|E]; [left; now rewrite E | now right]. }
  now apply filter_In in G.
Qed.

Lemma col_max_In xs M : col_max xs = Finite M -> In (Finite M) xs.
Proof.
  unfold col_max, reduce. intros H.
  assert (G : In (Finite M) (filter (fun x => negb (is_nan x)) xs)).
  { destruct (filter (fun x => negb (is_nan x)) xs) as [|v vs]; [discriminate|].
    rewrite <- H. destruct (fold_fmax_In vs v) as [E|E]; [left; now rewrite E | now right]. }
  now apply filter_In in G.
Qed.

Lemma Forall2_map_same {A B : Type} (R : A -> B -> Prop) (f : A -> B) l :
  (forall x, In x l -> R x (f x)) -> Forall2 R l (map f l).
Proof.
  induction l as [|a l IH]; intros H; simpl; constructor.
  - apply H. now left.
  - apply IH. intros x Hx. apply H. now right.
Qed.

Lemma unit_interval v m M :
  (m <= v)%Q -> (v <= M)%Q -> (m < M)%Q ->
  (0 <= (v - m) / (M - m))%Q /\ ((v - m) / (M - m) <= 1)%Q.
Proof.
  intros H1 H2 H3.
  assert (P : (0 < M - m)%Q).
  { unfold Qminus. rewrite <- (Qplus_opp_r m). apply Qplus_lt_le_compat;
      [assumption | apply Qle_refl]. }
  split.
  - apply Qle_shift_div_l; [exact P|]. rewrite Qmult_0_l.
    unfold Qminus. rewrite <- (Qplus_opp_r m). apply Qplus_le_compat;
      [assumption | apply Qle_refl].
  - apply Qle_shift_div_r; [exact P|]. rewrite Qmult_1_l.
    unfold Qminus. apply Qplus_le_compat; [assumption | apply Qle_refl].
Qed.

Lemma overflow_within q :
  (0 <= q)%Q -> (q <= max_float)%Q -> overflow q = Finite (Qred q).
Proof.
  intros H0 H1. unfold overflow.
  assert (E : Qle_bool (Qabs q) max_float = true).
  { apply Qle_bool_iff. now rewrite (Qabs_pos q H0). }
  now rewrite E.
Qed.

(** X8.  Normalize on a column that is not flat, whose minimum and maximum
    are finite and whose range [max - min] is a float64: a NaN cell stays
    NaN and a cell [v] becomes [(v - min) / (max - min)], which lies between
    0 and 1; the minimum and the maximum are cells of the column, and
    become 0 and 1. *)
Theorem normalize_col_range xs m M :
  col_min xs = Finite m ->
  col_max xs = Finite M ->
  ~ (m == M)%Q ->
  (M - m <= max_float)%Q ->
  Forall2 (fun x y =>
             match x with
             | NaN => y = NaN
             | Finite v => exists z, y = Finite z
                                     /\ (z == (v - m) / (M - m))%Q
                                     /\ (0 <= z)%Q /\ (z <= 1)%Q
                                     /\ ((v == m)%Q -> (z == 0)%Q)
                                     /\ ((v == M)%Q -> (z == 1)%Q)
             | _ => False
             end)
          xs (normalize_col xs)
  /\ In (Finite m) xs /\ In (Finite M) xs.
Proof.
  intros Hm HM Hne Hr.
  assert (Im := col_min_In xs m Hm). assert (IM := col_max_In xs M HM).
  split; [|now split].
  assert (Lt : (m < M)%Q).
  { assert (Le : fle (Finite m) (col_max xs) = true).
    { apply col_max_upper; [exact Im|discriminate]. }
    rewrite HM in Le. cbn [fle] in Le. apply Qle_bool_iff in Le.
    apply Qle_lteq in Le. destruct Le as [Le|Le]; [exact Le | contradiction]. }
  assert (P : (0 < M - m)%Q).
  { unfold Qminus. rewrite <- (Qplus_opp_r m). apply Qplus_lt_le_compat;
      [assumption | apply Qle_refl]. }
  assert (Nz : ~ (M - m == 0)%Q).
  { intros Z. rewrite Z in P. now apply Qlt_irrefl in P. }
  assert (D : replace_zero (fsub (col_max xs) (col_min xs)) = Finite (Qred (M - m))).
  { rewrite Hm, HM. cbn [fsub].
    rewrite overflow_within by (assumption || now apply Qlt_le_weak).
    cbn [replace_zero].
    destruct (Qeq_bool (Qred (M - m)) 0) eqn:Z; [|reflexivity].
    apply Qeq_bool_iff in Z. rewrite Qred_correct in Z. contradiction. }
  unfold normalize_col. rewrite D, Hm. apply Forall2_map_same.
  intros x Hx. destruct (is_nan x) eqn:N; [now destruct x|].
  assert (Hn : is_number x) by (intros ->; discriminate).
  destruct (finite_between xs m M x Hm HM Hx Hn) as [v [-> [L U]]].
  destruct (unit_interval v m M L U Lt) as [Z0 Z1].
  assert (V0 : (0 <= v - m)%Q).
  { unfold Qminus. rewrite <- (Qplus_opp_r m). apply Qplus_le_compat;
      [assumption | apply Qle_refl]. }
  assert (V1 : (v - m <= M - m)%Q).
  { unfold Qminus. apply Qplus_le_compat; [assumption | apply Qle_refl]. }
  cbn [fsub]. rewrite overflow_within by (assumption || (eapply Qle_trans; eassumption)).
  cbn [fdiv].
  assert (Zd : Qeq_bool (Qred (M - m)) 0 = false).
  { destruct (Qeq_bool (Qred (M - m)) 0) eqn:Z; [|reflexivity].
    apply Qeq_bool_iff in Z. rewrite Qred_correct in Z. contradiction. }
  rewrite Zd.
  assert (E : (Qred (v - m) / Qred (M - m) == (v - m) / (M - m))%Q).
  { now rewrite !Qred_correct. }
  rewrite overflow_small by (rewrite E, (Qabs_pos _ Z0); exact Z1).
  eexists. split; [reflexivity|]. rewrite Qred_correct, E.
  split; [reflexivity|]. repeat split; try assumption.
  - intros Ev. rewrite Ev. unfold Qminus. rewrite Qplus_opp_r.
    unfold Qdiv. apply Qmult_0_l.
  - intros Ev. rewrite Ev. apply Qmult_inv_r. exact Nz.
Qed.

(** ** Row keys are distinct *)

Lemma scalar_leb_false a b : scalar_leb a b = false -> scalar_lt b a.
Proof.
  intros H. split.
  - destruct (scalar_leb_total a b) as [T|T]; [unfold scalar_le in T; congruence | exact T].
  - destruct (scalar_eqb b a) eqn:E; [|reflexivity].
    assert (R : scalar_leb b b = true).
    { destruct (scalar_leb_total b b) as [T|T]; exact T. }
    rewrite (scalar_leb_eqb_l b a b E) in R. congruence.
Qed.

Lemma insert_key_strict k l :
  Sorted scalar_lt l -> Sorted scalar_lt (insert_key k l).
Proof.
  induction l as [|h t IH]; simpl; intros HS.
  - repeat constructor.
  - destruct (scalar_eqb k h) eqn:E; [exact HS|].
    destruct (scalar_leb k h) eqn:L.
    + constructor; [exact HS|]. constructor. now split.
    + apply Sorted_inv in HS. destruct HS as [HS Hhd].
      constructor; [now apply IH|].
      assert (Hk : scalar_lt h k) by now apply scalar_leb_false.
      destruct t as [|h' t']; simpl; [now constructor|].
      destruct (scalar_eqb k h'); [exact Hhd|].
      destruct (scalar_leb k h'); constructor; [exact Hk | now inversion Hhd].
Qed.

Lemma sort_unique_strict l : Sorted scalar_lt (sort_unique l).
Proof.
  induction l as [|k l IH]; simpl; [constructor | now apply insert_key_strict].
Qed.

Lemma argsort_sorted ks : forall a,
  Sorted scalar_lt ks ->
  fold_right insert_by [] (combine ks (seq a (List.length ks)))
  = combine ks (seq a (List.length ks)).
Proof.
  induction ks as [|k ks IH]; intros a HS; [reflexivity|].
  apply Sorted_inv in HS. destruct HS as [HS Hhd].
  cbn [List.length seq combine fold_right]. rewrite (IH (S a) HS).
  destruct ks as [|k2 ks2]; [reflexivity|].
  cbn [List.length seq combine insert_by fst].
  inversion Hhd as [|? ? [Hle _]]; subst. now rewrite Hle.
Qed.

Lemma sort_index_of_sorted ks :
  Sorted scalar_lt ks -> map fst (argsort ks) = ks.
Proof.
  intros HS. unfold argsort. rewrite (argsort_sorted ks 0 HS).
  apply combine_seq_fst.
Qed.

Section DistinctKeys.

Variable to_float : string -> option Q.

(** X9.  The row keys of the table [load_data] returns are strictly
    increasing: rows with the same key have been merged into one, in both
    formats. *)
Theorem row_keys_strictly_increasing file t :
  load_data to_float file = Ok (Some t) ->
  Sorted scalar_lt (index t).
Proof.
  unfold load_data. intros H. inv_bind H. unfold load_frame in H.
  destruct (format_A (strip_columns a)).
  - inv_bind H. injection H as <-. rewrite fill_index.
    unfold pivot_table in E0. do 3 inv_bind E0.
    destruct a3 as [vs|vs]; [|discriminate]. injection E0 as <-.
    cbn [sort_index dropna_columns index].
    rewrite sort_index_of_sorted; apply sort_unique_strict.
  - destruct (mem "time(ms)" (columns (strip_columns a))); [|discriminate].
    do 4 inv_bind H. injection H as <-. rewrite fill_index.
    unfold groupby_mean in E3. do 2 inv_bind E3. injection E3 as <-.
    cbn [sort_index dropna_columns index].
    rewrite sort_index_of_sorted; apply sort_unique_strict.
Qed.

End DistinctKeys.

(** ** Forward fill, then backward fill *)

Lemma ffill_from_app pre : forall last l,
  exists last',
    ffill_from last (pre ++ l) = ffill_from last pre ++ ffill_from last' l.
Proof.
  induction pre as [|x pre IH]; intros last l; simpl.
  - now exists last.
  - destruct (IH (match x with Some _ => x | None => last end) l) as [last' E].
    exists last'. now rewrite E.
Qed.

Lemma ffill_from_gap v n rest :
  ffill_from (Some v) (repeat None n ++ rest)
  = repeat (Some v) n ++ ffill_from (Some v) rest.
Proof.
  induction n as [|n IH]; simpl; [reflexivity | now rewrite IH].
Qed.

Lemma bfill_app_filled a b :
  filled b ->
  exists a', bfill_col (a ++ b) = a' ++ b /\ List.length a' = List.length a.
Proof.
  intros Hb. induction a as [|x a [a' [E L]]]; simpl.
  - exists []. split; [now apply bfill_filled | reflexivity].
  - rewrite E. destruct x as [v|].
    + exists (Some v :: a'). split; [reflexivity | simpl; now rewrite L].
    + exists (hd None (a' ++ b) :: a'). split; [reflexivity | simpl; now rewrite L].
Qed.

Lemma bfill_leading_gap v n f :
  filled f ->
  bfill_col (repeat None n ++ Some v :: f) = repeat (Some v) n ++ Some v :: f.
Proof.
  intros Hf. induction n as [|n IH]; simpl.
  - now rewrite bfill_filled.
  - rewrite IH. now destruct n.
Qed.

(** X13.  [ffill().bfill()] on a column: the cells of a gap that follows a
    value [v] take [v], the value before the gap, not the one after it; the
    cells of a gap at the top of the column take the first value. *)
Theorem gaps_take_previous_value v n rest :
  (forall pre,
     exists pre',
       List.length pre' = List.length pre
       /\ bfill_col (ffill_col (pre ++ Some v :: repeat None n ++ rest))
          = pre' ++ Some v :: repeat (Some v) n ++ ffill_from (Some v) rest)
  /\ bfill_col (ffill_col (repeat None n ++ Some v :: rest))
     = repeat (Some v) n ++ Some v :: ffill_from (Some v) rest.
Proof.
  split.
  - intros pre. unfold ffill_col.
    destruct (ffill_from_app pre None (Some v :: repeat None n ++ rest))
      as [last' ->].
    cbn [ffill_from]. rewrite ffill_from_gap.
    destruct (bfill_app_filled (ffill_from None pre)
                (Some v :: repeat (Some v) n ++ ffill_from (Some v) rest))
      as [a' [E L]].
    + constructor; [discriminate|]. apply Forall_app. split.
      * apply Forall_forall. intros x Hx. apply repeat_spec in Hx. now subst.
      * apply ffill_from_some.
    + exists a'. split; [now rewrite L, ffill_from_length | exact E].
  - unfold ffill_col.
    assert (F : ffill_from None (repeat None n ++ Some v :: rest)
                = repeat None n ++ Some v :: ffill_from (Some v) rest).
    { induction n as [|n IH]; simpl; [reflexivity | now rewrite IH]. }
    rewrite F. apply bfill_leading_gap. apply ffill_from_some.
Qed.

(** ** The text of a facet annotation *)

Lemma contains_eq_cons c r :
  contains (String c r) "=" = Ascii.eqb c "="%char || contains r "=".
Proof.
  cbn [contains prefix]. destruct (ascii_dec "=" c) as [<-|N].
  - now destruct r.
  - assert (E : Ascii.eqb c "=" = false).
    { apply Ascii.eqb_neq. congruence. }
    now rewrite E.
Qed.

Lemma contains_eq_app p name :
  contains (p ++ String "=" name)%string "=" = true.
Proof.
  induction p as [|c p IH]; cbn [append].
  - rewrite contains_eq_cons. reflexivity.
  - rewrite contains_eq_cons, IH. apply orb_true_r.
Qed.

(** X15.  The facet annotation keeps what follows its last [=]: the text
    [prefix=name] becomes [name] when [name] has no [=] in it, and whatever
    the text the result has no [=]; so of a sensor name with an [=] only the
    end is shown. *)
Theorem facet_label_after_last_eq :
  (forall p name,
     contains name "=" = false ->
     after_last_eq (p ++ String "=" name)%string = name)
  /\ (forall s, contains (after_last_eq s) "=" = false)
  /\ after_last_eq "Sensor=A=B" = "B".
Proof.
  split; [|split; [|reflexivity]].
  - intros p name Hn. induction p as [|c p IH]; cbn [append after_last_eq].
    + rewrite Hn. reflexivity.
    + now rewrite contains_eq_app.
  - induction s as [|c r IH]; [reflexivity|]. cbn [after_last_eq].
    destruct (contains r "=") eqn:C; [exact IH|].
    destruct (Ascii.eqb c "=") eqn:E; [exact C|].
    now rewrite contains_eq_cons, E, C.
Qed.

(** ** What [load_data] looks at *)

Lemma strip_columns_named (f : nat -> series) h : forall h' k n,
  map strip h' = map strip h ->
  strip_columns (map (fun c => (snd c, f (fst c))) (combine (seq k n) h'))
  = strip_columns (map (fun c => (snd c, f (fst c))) (combine (seq k n) h)).
Proof.
  induction h as [|x h IH]; intros [|x' h'] k n H; simpl in *; try discriminate;
    [reflexivity|].
  injection H as Hx Hh. destruct n as [|n]; [reflexivity|].
  unfold strip_columns in *. simpl. rewrite Hx. f_equal. now apply IH.
Qed.

Lemma get_column_filter name (p : string * series -> bool) df :
  (forall c, fst c = name -> p c = true) ->
  get_column name (filter p df) = get_column name df.
Proof.
  intros H. unfold get_column.
  assert (E : filter (fun c => String.eqb (fst c) name) (filter p df)
              = filter (fun c => String.eqb (fst c) name) df).
  { induction df as [|c df IH]; simpl; [reflexivity|].
    destruct (String.eqb_spec (fst c) name) as [En|En].
    - rewrite (H c En). simpl. rewrite IH.
      destruct (String.eqb_spec (fst c) name); [reflexivity | contradiction].
    - destruct (p c); simpl; [|exact IH].
      destruct (String.eqb_spec (fst c) name); [contradiction | exact IH]. }
  now rewrite E.
Qed.

Lemma mem_columns_filter name (p : string * series -> bool) df :
  (forall c, fst c = name -> p c = true) ->
  mem name (columns (filter p df)) = mem name (columns df).
Proof.
  intros H. destruct (mem name (columns df)) eqn:M.
  - apply mem_In. apply mem_In in M. unfold columns in *.
    apply in_map_iff in M. destruct M as [c [E Hc]].
    apply in_map_iff. exists c. split; [exact E|].
    apply filter_In. split; [exact Hc | now apply H].
  - apply mem_false. apply mem_false in M. intros C. apply M.
    unfold columns in *. apply in_map_iff in C. destruct C as [c [E Hc]].
    apply filter_In in Hc. apply in_map_iff. exists c. tauto.
Qed.

Section Inputs.

Variable to_float : string -> option Q.

(** X12.  White space around the header names does not count when no name
    is empty or repeated: two files (lines ended by LF or CR LF) with the
    same data records whose header names are distinct, not empty, and the
    same once stripped give the same result. *)
Theorem header_whitespace_ignored file file' header header' rs :
  no_lone_CR file = true ->
  no_lone_CR file' = true ->
  tokenize file = Ok (header :: rs) ->
  tokenize file' = Ok (header' :: rs) ->
  NoDup header -> ~ In EmptyString header ->
  NoDup header' -> ~ In EmptyString header' ->
  map strip header' = map strip header ->
  load_data to_float file' = load_data to_float file.
Proof.
  intros _ _ T T' ND NE ND' NE' H.
  assert (L : List.length header' = List.length header).
  { rewrite <- (length_map strip header'), H. apply length_map. }
  unfold load_data.
  rewrite (read_csv_records to_float _ _ T), (read_csv_records to_float _ _ T').
  unfold read_records.
  rewrite (header_names_distinct header), (header_names_distinct header') by assumption.
  cbn [bind]. rewrite L.
  set (body := map (skipn _) _).
  now rewrite (strip_columns_named
                 (fun j => infer_dtype to_float (map (fun r => nth j r EmptyString) body))
                 header header' 0 _ H).
Qed.

(** X11.  In a long-format file only the columns SECONDS, PID and VALUE
    count: the result is that of the frame with the other columns taken
    away. *)
Theorem other_columns_ignored file df0 :
  read_csv to_float file = Ok df0 ->
  format_A (strip_columns df0) = true ->
  load_data to_float file
  = load_frame to_float
      (filter (fun c => mem (fst c) ["SECONDS"; "PID"; "VALUE"])
              (strip_columns df0)).
Proof.
  intros E Ha. unfold load_data. rewrite E. cbn [bind].
  set (df := strip_columns df0) in *.
  set (p := fun c : string * series => mem (fst c) ["SECONDS"; "PID"; "VALUE"]).
  assert (Ha' : format_A (filter p df) = true).
  { unfold format_A in *. cbn [forallb] in *.
    rewrite !mem_columns_filter; [exact Ha | | | ];
      intros c Hc; unfold p; rewrite Hc; reflexivity. }
  unfold load_frame. rewrite Ha, Ha'. unfold pivot_table.
  rewrite !get_column_filter; [reflexivity | | | ];
    intros c Hc; unfold p; rewrite Hc; reflexivity.
Qed.

(** X10.  The columns of the table are sensors of the file.  The columns
    of the frame are named by the header, a repeated or empty name being
    renamed.  In the wide format every label of the table is one of these
    names, stripped, other than [time(ms)] and [SECONDS]; in the long
    format every label is a value of the PID column. *)
Theorem table_labels_are_sensors file df0 t :
  read_csv to_float file = Ok df0 ->
  load_data to_float file = Ok (Some t) ->
  (forall header rs, tokenize file = Ok (header :: rs) ->
                     columns df0 = header_names header)
  /\ (format_A (strip_columns df0) = false ->
   forall l, In l (map fst (cols t)) ->
     exists name, l = Str name /\ In name (columns (strip_columns df0))
                  /\ name <> "SECONDS" /\ name <> "time(ms)")
  /\ (format_A (strip_columns df0) = true ->
      forall l, In l (map fst (cols t)) ->
        exists ps, get_column "PID" (strip_columns df0) = Ok ps
                   /\ In (Some l) (keys ps)).
Proof.
  intros E H. split.
  { intros header rs T.
    destruct (read_records_columns to_float header rs) as [df1 [E1 [Hc _]]].
    rewrite <- (read_csv_records to_float file _ T) in E1. congruence. }
  unfold load_data in H. rewrite E in H. cbn [bind] in H.
  set (df := strip_columns df0) in *. split.
  - intros Ha l Hl.
    assert (Hb : mem "time(ms)" (columns df) = true).
    { unfold load_frame in H. rewrite Ha in H.
      destruct (mem "time(ms)" (columns df)); [reflexivity | discriminate]. }
    rewrite (load_frame_wide to_float df Ha Hb) in H. do 4 inv_bind H.
    injection H as <-. rewrite table_labels_after_fill in Hl.
    apply in_map_iff in Hl. destruct Hl as [col [<- Hc]].
    cbn [dropna_columns cols] in Hc. apply filter_In in Hc.
    destruct Hc as [Hc _]. cbn [sort_index cols] in Hc.
    apply in_map_iff in Hc. destruct Hc as [col0 [<- Hc0]]. cbn [fst].
    destruct (groupby_mean_columns _ _ _ E3 col0 Hc0)
      as [n [xs [Hn [Hk [Hin2 _]]]]].
    exists n. split; [exact Hn|].
    apply coerce_columns_spec in E2. subst a1.
    unfold coerced in Hin2. apply in_map_iff in Hin2.
    destruct Hin2 as [c1 [Ec1 Hc1]].
    assert (N1 : fst c1 = n).
    { destruct (mem (fst c1) _); now inversion Ec1. }
    destruct (prepared_In c1 a0 df Hc1) as [c0 [Hc0' [N0 _]]]; [congruence|].
    repeat split.
    + unfold columns. apply in_map_iff. exists c0. split; [congruence | exact Hc0'].
    + exact Hk.
    + unfold prepared, replace, drop_column in Hc1. apply in_map_iff in Hc1.
      destruct Hc1 as [c2 [<- H2]]. apply filter_In in H2.
      destruct H2 as [_ H2]. cbn [fst] in N1. rewrite N1 in H2.
      apply negb_true_iff in H2. now apply String.eqb_neq.
  - intros Ha l Hl. unfold load_frame in H. rewrite Ha in H.
    inv_bind H. injection H as <-. rewrite table_labels_after_fill in Hl.
    unfold pivot_table in E0. do 3 inv_bind E0.
    destruct a2 as [vs|vs]; [|discriminate]. injection E0 as <-.
    exists a1. split; [exact E2|].
    cbn [sort_index dropna_columns cols] in Hl. rewrite map_map in Hl.
    apply in_map_iff in Hl. destruct Hl as [col [<- Hc]]. cbn [fst].
    apply filter_In in Hc. destruct Hc as [Hc _].
    apply in_map_iff in Hc. destruct Hc as [p [<- Hp]]. cbn [fst].
    apply sort_unique_In in Hp. apply in_map_iff in Hp.
    destruct Hp as [[s0 p0] [<- Hg]]. cbn [snd].
    apply filter_In in Hg. destruct Hg as [Hg _].
    assert (G : forall (lp : list (option scalar * option scalar)) a b,
              In (a, b) (present_pairs lp) -> In (Some a, Some b) lp).
    { induction lp as [|[[x|] [y|]] lp IH]; simpl; intros a b Hab;
        try (right; now apply IH); [contradiction|].
      destruct Hab as [Hab|Hab]; [left; congruence | right; now apply IH]. }
    apply G in Hg. now apply in_combine_r in Hg.
Qed.

End Inputs.

(** ** Cells of the wide format *)

Lemma mapM_In_rev {A B : Type} (f : A -> result B) l bs :
  mapM f l = Ok bs -> forall a, In a l -> exists b, In b bs /\ f a = Ok b.
Proof.
  revert bs. induction l as [|x l IH]; simpl; intros bs H a Ha; [contradiction|].
  inv_bind H. inv_bind H. injection H as <-.
  destruct Ha as [<-|Ha].
  - exists a0. split; [now left | exact E].
  - destruct (IH _ E0 a Ha) as [b [Hb Eb]]. exists b. split; [now right | exact Eb].
Qed.



Section WideCells.

Variable to_float : string -> option Q.


End WideCells.

(** ** The wide format: row keys and filled columns *)

Lemma first_value_from_ffill_None xs :
  first_value_from (ffill_from None xs) 0 = first_value_from xs 0.
Proof.
  induction xs as [|[v|] r IH]; simpl; [reflexivity|reflexivity|exact IH].
Qed.

Lemma ffill_from_nth xs : forall last i,
  i < List.length xs ->
  nth i (ffill_from last xs) None
  = match last_value_before xs i with
    | Some v => Some v
    | None => last
    end.
Proof.
  induction xs as [|x r IH]; intros last i Hi; simpl in Hi; [lia|].
  destruct i as [|j]; cbn [ffill_from nth last_value_before].
  - now destruct x.
  - rewrite IH by lia. destruct (last_value_before r j); [reflexivity|].
    now destruct x.
Qed.

Lemma hd_bfill_col xs : hd None (bfill_col xs) = first_value_from xs 0.
Proof.
  induction xs as [|[v|] r IH]; simpl; [reflexivity|reflexivity|exact IH].
Qed.

Lemma bfill_col_nth xs : forall i,
  nth i (bfill_col xs) None = first_value_from xs i.
Proof.
  induction xs as [|x r IH]; intros i; [now destruct i|].
  destruct i as [|j]; cbn [bfill_col first_value_from].
  - destruct x as [v|]; cbn [nth]; [reflexivity|apply hd_bfill_col].
  - destruct x as [v|]; cbn [nth]; apply IH.
Qed.

Lemma first_value_from_ffill xs : forall last i,
  i < List.length xs ->
  first_value_from (ffill_from last xs) i
  = match (match last_value_before xs i with
           | Some v => Some v
           | None => last
           end) with
    | Some v => Some v
    | None => first_value_from xs i
    end.
Proof.
  induction xs as [|x r IH]; intros last i Hi; simpl in Hi; [lia|].
  destruct i as [|j]; cbn [ffill_from first_value_from last_value_before].
  - destruct x as [v|]; [reflexivity|]. destruct last as [l|]; [reflexivity|].
    apply first_value_from_ffill_None.
  - rewrite IH by lia. destruct (last_value_before r j); [reflexivity|].
    now destruct x.
Qed.

(** Forward fill, then backward fill, cell by cell. *)
Lemma fill_nth xs i :
  i < List.length xs ->
  nth i (bfill_col (ffill_col xs)) None = filled_value xs i.
Proof.
  intros Hi. unfold ffill_col, filled_value.
  rewrite bfill_col_nth, first_value_from_ffill by assumption.
  now destruct (last_value_before xs i).
Qed.

Section WideColumns.

Variable to_float : string -> option Q.

Lemma wide_keys_rev df tm t :
  format_A df = false ->
  get_column "time(ms)" df = Ok (Float64 tm) ->
  load_frame to_float df = Ok (Some t) ->
  forall ms, In (Some ms) tm ->
  exists k, In k (index t) /\ scalar_eqb k (Flt (Qred (ms / 1000)%Q)) = true.
Proof.
  intros Ha Ht H ms Hms.
  assert (Hb : mem "time(ms)" (columns df) = true).
  { apply mem_In. apply get_column_In in Ht. destruct Ht as [Ht _].
    unfold columns. apply in_map_iff. now exists ("time(ms)", Float64 tm). }
  rewrite (load_frame_wide to_float df Ha Hb), Ht in H. cbn [bind truediv] in H.
  inv_bind H. inv_bind H. injection H as <-.
  rewrite fill_index. cbn [dropna_columns index sort_index].
  unfold groupby_mean in E0. inv_bind E0. inv_bind E0. injection E0 as <-.
  cbn [index].
  apply coerce_columns_spec in E. subst a.
  apply seconds_column in E1. subst a1. cbn [replace_series keys].
  destruct (sort_unique_has (Flt (Qred (ms / 1000)%Q))
              (present (map (option_map Flt)
                 (map (option_map (fun x => Qred (x / 1000)%Q)) tm))))
    as [k [Hk Ek]].
  { apply In_present. rewrite map_map. apply in_map_iff. now exists (Some ms). }
  exists k. split; [now apply argsort_In_rev | exact Ek].
Qed.

(** The column of a sensor that has a reading: the means of its readings,
    time by time, forward filled and then backward filled. *)
Lemma wide_column df tm name s xs t :
  format_A df = false ->
  NoDup (columns df) ->
  get_column "time(ms)" df = Ok (Float64 tm) ->
  get_column name df = Ok s ->
  name <> "time(ms)" ->
  name <> "SECONDS" ->
  to_numeric to_float (replace_series "-" s) = Float64 xs ->
  load_frame to_float df = Ok (Some t) ->
  let ks := map (option_map (fun x => Flt (Qred (x / 1000)%Q))) tm in
  let raw := map (fun k => mean_skipna (group_values k ks xs)) (index t) in
  existsb is_some raw = true ->
  In (Str name, bfill_col (ffill_col raw)) (cols t).
Proof.
  intros Ha ND Ht Hs Hn1 Hn2 Hx H ks raw HF.
  assert (Hb : mem "time(ms)" (columns df) = true).
  { apply mem_In. apply get_column_In in Ht. destruct Ht as [Ht _].
    unfold columns. apply in_map_iff. now exists ("time(ms)", Float64 tm). }
  rewrite (load_frame_wide to_float df Ha Hb), Ht in H. cbn [bind truediv] in H.
  set (seconds := Float64 _) in H. set (df1 := prepared seconds df) in H.
  inv_bind H. inv_bind H. injection H as Et.
  apply coerce_columns_spec in E. subst a.
  set (df2 := coerced to_float (sensor_columns df1) df1) in *.
  assert (ND2 : NoDup (columns df2)).
  { unfold df2. rewrite columns_coerced. now apply NoDup_columns_prepared. }
  assert (In1 : In (name, replace_series "-" s) df1).
  { unfold df1, prepared, replace. apply in_map_iff.
    exists (name, s). split; [reflexivity|].
    apply filter_In. split.
    - apply set_column_other_In; [|exact Hn2]. now apply get_column_In in Hs.
    - cbn [fst]. apply negb_true_iff. now apply String.eqb_neq. }
  assert (In2 : In (name, Float64 xs) df2).
  { unfold df2, coerced. apply in_map_iff.
    exists (name, replace_series "-" s). split; [|exact In1].
    cbn [fst snd].
    assert (M : mem name (sensor_columns df1) = true).
    { apply mem_In. unfold sensor_columns. apply filter_In. split.
      - unfold columns. apply in_map_iff. now exists (name, replace_series "-" s).
      - apply negb_true_iff. now apply String.eqb_neq. }
    now rewrite M, Hx. }
  unfold groupby_mean in E0. inv_bind E0. inv_bind E0. injection E0 as Eg.
  apply seconds_column in E. subst a.
  assert (Kk : keys (replace_series "-" seconds) = ks).
  { unfold seconds, ks. cbn [replace_series keys]. rewrite map_map.
    apply map_ext. now intros [x|]. }
  rewrite Kk in *.
  set (idx := sort_unique (present ks)) in *.
  set (F := fun (g l : scalar) =>
              match l with
              | Str n =>
                  match get_column n df2 with
                  | Ok (Float64 ys) => mean_skipna (group_values g ks ys)
                  | _ => None
                  end
              | Flt _ => None
              end).
  assert (Fn : forall g, F g (Str name) = mean_skipna (group_values g ks xs)).
  { intros g. unfold F. now rewrite (get_column_NoDup name (Float64 xs) df2 ND2 In2). }
  assert (Co : coherent F a0).
  { subst a0. intros col Hcol. cbn [cols index] in *.
    destruct (mapM_In _ _ _ E1 col Hcol) as [[n sr] [Hin Hf]].
    apply filter_In in Hin. destruct Hin as [Hin _]. cbn [fst snd] in Hf.
    destruct sr as [ys|ys]; [|discriminate]. injection Hf as <-. cbn [fst snd].
    apply map_ext. intros g. unfold F.
    now rewrite (get_column_NoDup n (Float64 ys) df2 ND2 Hin). }
  destruct (mapM_In_rev _ _ _ E1 (name, Float64 xs)) as [col [Hcol Ecol]].
  { apply filter_In. split; [exact In2|]. cbn [fst].
    apply negb_true_iff. now apply String.eqb_neq. }
  cbn [fst snd] in Ecol. injection Ecol as Ecol.
  assert (Hcol0 : In col (cols a0)) by (subst a0; exact Hcol).
  assert (Hs1 : In (fst col, take None (map snd (argsort (index a0))) (snd col))
                   (cols (sort_index a0))).
  { cbn [sort_index cols]. apply in_map_iff. now exists col. }
  assert (Cc := sort_index_coherent F a0 Co _ Hs1). cbn [fst snd] in Cc.
  assert (Ei : index t = index (sort_index a0)) by (now subst t).
  assert (Er : take None (map snd (argsort (index a0))) (snd col) = raw).
  { rewrite Cc. unfold raw. rewrite Ei. apply map_ext. intros k.
    rewrite <- Ecol. cbn [fst]. apply Fn. }
  rewrite Er in Hs1. rewrite <- Ecol in Hs1. cbn [fst] in Hs1.
  subst t. cbn [bfill ffill map_cols cols dropna_columns].
  rewrite map_map. cbn [fst snd]. apply in_map_iff.
  exists (Str name, raw). split; [reflexivity|].
  apply filter_In. split; [exact Hs1|exact HF].
Qed.

End WideColumns.

(** C5.  The first example file gives Speed 45 in both rows, the first
    filled backward; the second has a gap after a value, which takes that
    value.  In general, for a wide-format file with numeric [time(ms)]: a
    dash is read as a missing cell (the frame with its dashes removed gives
    the same result); the row keys of the table are the [time(ms)] values
    divided by 1000, all of them; and, the labels being distinct, the
    column of a sensor that has a reading holds, row by row, the mean of the
    readings at that time or, where there is none, the last value before
    that row or else the first value after it. *)
Theorem wide_format_seconds_and_fill :
  load_data simple_float wide_example = Ok (Some wide_table)
  /\ load_data simple_float forward_fill_example = Ok (Some forward_fill_table)
  /\ forall to_float file df0 tm,
       read_csv to_float file = Ok df0 ->
       format_A (strip_columns df0) = false ->
       get_column "time(ms)" (strip_columns df0) = Ok (Float64 tm) ->
       load_frame to_float (replace "-" (strip_columns df0)) = load_data to_float file
       /\ forall t,
            load_data to_float file = Ok (Some t) ->
            let ks := map (option_map (fun x => Flt (Qred (x / 1000)%Q))) tm in
            (forall k, In k (index t) ->
               exists ms, In (Some ms) tm /\ k = Flt (Qred (ms / 1000)%Q))
            /\ (forall ms, In (Some ms) tm ->
                  exists k, In k (index t)
                            /\ scalar_eqb k (Flt (Qred (ms / 1000)%Q)) = true)
            /\ (NoDup (columns (strip_columns df0)) ->
                forall name s xs,
                  get_column name (strip_columns df0) = Ok s ->
                  name <> "time(ms)" ->
                  name <> "SECONDS" ->
                  to_numeric to_float (replace_series "-" s) = Float64 xs ->
                  let raw := map (fun k => mean_skipna (group_values k ks xs))
                                 (index t) in
                  existsb is_some raw = true ->
                  exists zs,
                    In (Str name, zs) (cols t)
                    /\ List.length zs = List.length (index t)
                    /\ forall i, i < List.length zs ->
                         nth i zs None = filled_value raw i).
Proof.
  split; [reflexivity|]. split; [reflexivity|].
  intros to_float file df0 tm E Ha Ht.
  assert (L : load_data to_float file = load_frame to_float (strip_columns df0)).
  { unfold load_data. now rewrite E. }
  rewrite L. split; [now apply (dash_is_missing to_float _ tm)|].
  intros t H ks.
  split; [exact (wide_keys to_float _ tm t Ha Ht H)|].
  split; [exact (wide_keys_rev to_float _ tm t Ha Ht H)|].
  intros ND name s xs Hs Hn1 Hn2 Hx raw HF.
  exists (bfill_col (ffill_col raw)).
  assert (Len : List.length (bfill_col (ffill_col raw)) = List.length (index t)).
  { unfold ffill_col. rewrite bfill_col_length, ffill_from_length. unfold raw.
    apply length_map. }
  split; [exact (wide_column to_float _ tm name s xs t Ha ND Ht Hs Hn1 Hn2 Hx H HF)|].
  split; [exact Len|].
  intros i Hi. apply fill_nth. rewrite Len in Hi. unfold raw. now rewrite length_map.
Qed.

Lemma wide_format_seconds_and_fill_witness :
  load_frame simple_float (replace "-" (strip_columns forward_fill_frame))
  = load_data simple_float forward_fill_example
  /\ exists zs,
       In (Str "Speed", zs) (cols forward_fill_table)
       /\ List.length zs = 3
       /\ forall i, i < List.length zs ->
            nth i zs None = filled_value [Some 40%Q; None; Some 50%Q] i.
Proof.
  destruct (proj2 (proj2 wide_format_seconds_and_fill) simple_float
              forward_fill_example forward_fill_frame
              [Some 1000%Q; Some 2000%Q; Some 3000%Q] eq_refl eq_refl eq_refl)
    as [A B].
  split; [exact A|].
  destruct (B forward_fill_table eq_refl) as [_ [_ C]].
  apply (C ltac:(repeat constructor; simpl; intuition discriminate)
           "Speed" (Object [Some "40"; Some "-"; Some "50"])
           [Some 40%Q; None; Some 50%Q] eq_refl);
    (discriminate || reflexivity).
Defined.

(** ** The outcomes of the tokenizer *)

Lemma fmap_Ok {A B : Type} (f : A -> B) r :
  (exists a, r = Ok a) -> exists b, fmap f r = Ok b.
Proof. intros [a ->]. unfold fmap. cbn [bind]. eauto. Qed.

Lemma tokenize_bytes_unquoted s : forall st,
  st <> IN_QUOTED_FIELD ->
  st <> QUOTE_IN_QUOTED_FIELD ->
  (forall c, In c (list_ascii_of_string s) -> c <> quotechar) ->
  exists records, tokenize_bytes st s = Ok records.
Proof.
  induction s as [|c r IH]; intros st H1 H2 Hq.
  - destruct st; cbn [tokenize_bytes handle_eof]; eauto; congruence.
  - assert (Hc : Ascii.eqb c quotechar = false).
    { apply Ascii.eqb_neq. apply Hq. now left. }
    assert (N : forall st', st' <> IN_QUOTED_FIELD -> st' <> QUOTE_IN_QUOTED_FIELD ->
                            exists records, tokenize_bytes st' r = Ok records).
    { intros st' A B. apply IH; [assumption|assumption|].
      intros c' Hc'. apply Hq. now right. }
    assert (F : exists records,
              in_field c (fun st' => tokenize_bytes st' r) = Ok records).
    { unfold in_field.
      destruct (Ascii.eqb c LF); [apply fmap_Ok, N; discriminate|].
      destruct (Ascii.eqb c CR); [apply fmap_Ok, N; discriminate|].
      destruct (Ascii.eqb c delimiter); apply fmap_Ok, N; discriminate. }
    assert (S : exists records,
              start_record c (fun st' => tokenize_bytes st' r) (blank_line r)
              = Ok records).
    { unfold start_record, start_field. rewrite Hc.
      destruct (Ascii.eqb c LF); [apply N; discriminate|].
      destruct (Ascii.eqb c CR); [apply N; discriminate|].
      destruct (is_blank c); [|exact F].
      destruct (blank_line r); [apply N; discriminate|].
      apply fmap_Ok, N; discriminate. }
    rewrite tokenize_bytes_cons.
    destruct st; cbn [step]; [exact S| | | |exact F|congruence|congruence].
    + destruct (Ascii.eqb c LF); [apply N; discriminate|].
      destruct (Ascii.eqb c CR); apply N; discriminate.
    + destruct (Ascii.eqb c LF); [apply N; discriminate|exact S].
    + unfold start_field. rewrite Hc. exact F.
Qed.

Lemma skip_bom_suffix s c :
  In c (list_ascii_of_string (skip_bom s)) -> In c (list_ascii_of_string s).
Proof.
  destruct s as [|a [|b [|d r]]]; cbn [skip_bom]; try tauto.
  destruct (is_byte 239 a && is_byte 187 b && is_byte 191 d); [|tauto].
  cbn [list_ascii_of_string]. intros H. right. right. now right.
Qed.

(** X17.  Bytes that are not UTF-8 make the read raise UnicodeDecodeError;
    a file that is UTF-8, whose lines end with LF or CR LF and that holds
    no double quote is always cut into records. *)
Theorem tokenize_outcomes file :
  (utf8_valid file = false -> tokenize file = Raise UnicodeDecodeError)
  /\ (utf8_valid file = true ->
      no_lone_CR file = true ->
      (forall c, In c (list_ascii_of_string file) -> c <> quotechar) ->
      exists records, tokenize file = Ok records).
Proof.
  unfold tokenize. split.
  - now intros ->.
  - intros -> _ Hq. apply tokenize_bytes_unquoted; try discriminate.
    intros c Hc. apply Hq. now apply skip_bom_suffix.
Qed.


(** ** Check boxes and dictionary *)

Lemma dict_get_eqb a b d :
  scalar_eqb a b = true -> dict_get a d = dict_get b d.
Proof.
  intros H. unfold dict_get. induction d as [|e r IH]; simpl; [reflexivity|].
  destruct (scalar_eqb (fst e) a) eqn:E1, (scalar_eqb (fst e) b) eqn:E2;
    try reflexivity; try exact IH.
  - rewrite (scalar_eqb_trans _ _ _ E1 H) in E2. discriminate.
  - rewrite scalar_eqb_sym in H. rewrite (scalar_eqb_trans _ _ _ E2 H) in E1.
    discriminate.
Qed.

Lemma dict_mem_get k d : dict_mem k d = true -> exists v, dict_get k d = Ok v.
Proof.
  unfold dict_mem, dict_get. intros H.
  destruct (find (fun e => scalar_eqb (fst e) k) d) as [e|] eqn:F; [eauto|].
  exfalso. apply existsb_exists in H. destruct H as [e [He Ee]].
  assert (N := find_none _ _ F e He). cbn in N. congruence.
Qed.

(** X16.  The loop over the listed sensors leaves every check box that has a
    widget key as it is, gives a check box without one the value of the
    dictionary, and leaves no listed sensor without a widget key. *)
Theorem sync_checkboxes_keeps_widgets d l : forall c c',
  sync_checkboxes d l c = Ok c' ->
  (forall k v, dict_get k c = Ok v -> dict_get k c' = Ok v)
  /\ (forall s, In s l -> dict_mem s c = false -> dict_get s c' = dict_get s d)
  /\ (forall s, In s l -> dict_mem s c' = true).
Proof.
  induction l as [|s0 r IH]; intros c c' H; simpl in H.
  - injection H as <-. repeat split; [auto | intros s [] | intros s []].
  - destruct (dict_mem s0 c) eqn:M.
    + destruct (IH c c' H) as [K1 [K2 K3]]. repeat split.
      * exact K1.
      * intros s [<-|Hs] Hn; [congruence | now apply K2].
      * intros s [<-|Hs]; [|now apply K3].
        destruct (dict_mem_get _ _ M) as [v Hv].
        apply (dict_get_mem _ _ v). now apply K1.
    + inv_bind H. destruct (IH _ c' H) as [K1 [K2 K3]].
      assert (P : forall k v, dict_get k c = Ok v ->
                              dict_get k (dict_set s0 a c) = Ok v).
      { intros k v Hk. rewrite dict_get_set.
        destruct (scalar_eqb s0 k) eqn:Ek; [|exact Hk].
        rewrite (dict_mem_eqb _ _ c Ek) in M.
        rewrite (dict_get_mem _ _ _ Hk) in M. discriminate. }
      repeat split.
      * intros k v Hk. apply K1. now apply P.
      * intros s Hs Hn. destruct (scalar_eqb s0 s) eqn:Es.
        -- rewrite <- (dict_get_eqb _ _ d Es), E. apply K1.
           rewrite dict_get_set. now rewrite Es.
        -- destruct Hs as [<-|Hs]; [now rewrite scalar_eqb_refl in Es|].
           apply K2; [exact Hs|]. rewrite dict_mem_set. now rewrite Es.
      * intros s [<-|Hs]; [|now apply K3].
        apply (dict_get_mem _ _ a). apply K1.
        rewrite dict_get_set. now rewrite scalar_eqb_refl.
Qed.

(** ** The further properties at concrete inputs *)

Lemma deselect_all_clears_witness :
  exists st', deselect_all example_state = Ok st'
              /\ get_selected_list st' = Ok [].
Proof.
  destruct (deselect_all_clears example_state example_dict eq_refl eq_refl)
    as [st' [A [_ [B _]]]].
  exists st'. split; assumption.
Defined.

Lemma select_visible_matches_selects_witness :
  exists st', select_visible_matches "P" example_state = Ok st'
              /\ sensor_states_dict st'
                 = Some [(Str "Speed", true); (Str "RPM", true); (Str "Fuel", true)].
Proof.
  destruct (select_visible_matches_selects "P" example_state example_dict
              eq_refl eq_refl eq_refl eq_refl eq_refl) as [st' [A [B _]]].
  exists st'. split; assumption.
Defined.

Lemma clear_then_select_all_witness :
  exists st', select_visible_matches (clear_search "rp") example_state = Ok st'
              /\ get_selected_list st' = Ok [Str "Speed"; Str "RPM"; Str "Fuel"].
Proof.
  destruct (clear_then_select_all "rp" example_state example_dict
              eq_refl eq_refl) as [st' [A [_ B]]].
  exists st'. split; assumption.
Defined.

Lemma toggle_sensor_sets_witness :
  exists d', toggle_sensor (Str "Speed") example_state
             = Ok {| sensor_states_dict := Some d';
                     chk := chk example_state;
                     graph_active := graph_active example_state |}
             /\ dict_get (Str "Speed") d' = Ok false.
Proof.
  destruct (proj1 (toggle_sensor_sets (Str "Speed") example_state example_dict
                     eq_refl) false eq_refl) as [d' [A [B _]]].
  exists d'. split; assumption.
Defined.

Lemma main_returns_or_raises_witness :
  main simple_float no_plot_error example_state search_widgets
       (Some numeric_pid_example)
  = Raise AttributeError.
Proof.
  apply (proj2 (main_returns_or_raises simple_float no_plot_error example_state
                  search_widgets numeric_pid_example numeric_pid_table eq_refl));
    [discriminate | reflexivity].
Defined.

Lemma main_keeps_dictionary_witness :
  get_selected_list example_state_after = Ok [Str "Speed"; Str "Fuel"].
Proof.
  destruct (main_keeps_dictionary simple_float no_plot_error example_state
              example_widgets gap_example gap_table example_state_after
              [st_subheader "Timeline";
               st_plotly_chart false example_plot;
               st_dataframe_describe example_plot]
              eq_refl eq_refl) as [d' [_ [_ [_ [A _]]]]].
  exact A.
Defined.

Lemma main_render_cases_witness :
  graph_active example_state_after = true
  /\ exists plot_data,
       [st_subheader "Timeline";
        st_plotly_chart false example_plot;
        st_dataframe_describe example_plot]
       = [st_subheader "Timeline";
          st_plotly_chart (split_graphs example_widgets) plot_data;
          st_dataframe_describe plot_data]
       /\ plot_index plot_data = index gap_table
       /\ exists c, In c (plot_cols plot_data)
                    /\ scalar_eqb (fst c) (Str "Speed") = true.
Proof.
  destruct (main_render_cases simple_float no_plot_error example_state
              example_widgets gap_example gap_table example_state_after
              [st_subheader "Timeline";
               st_plotly_chart false example_plot;
               st_dataframe_describe example_plot]
              eq_refl eq_refl) as [A [_ [_ [_ B]]]].
  split; [exact A|].
  destruct (B eq_refl) as [plot_data [E [_ [I [_ S]]]]].
  - exists (Str "Speed"). split; [now left | reflexivity].
  - exists plot_data. split; [exact E|]. split; [exact I|].
    apply S; [now left | reflexivity].
Defined.

Lemma normalize_col_range_witness :
  Forall2 (fun x y =>
             match x with
             | NaN => y = NaN
             | Finite v => exists z, y = Finite z
                                     /\ (z == (v - 800) / (900 - 800))%Q
                                     /\ (0 <= z)%Q /\ (z <= 1)%Q
                                     /\ ((v == 800)%Q -> (z == 0)%Q)
                                     /\ ((v == 900)%Q -> (z == 1)%Q)
             | _ => False
             end)
          [Finite 800; NaN; Finite 820; Finite 900]
          (normalize_col [Finite 800; NaN; Finite 820; Finite 900])
  /\ In (Finite 800) [Finite 800; NaN; Finite 820; Finite 900]
  /\ In (Finite 900) [Finite 800; NaN; Finite 820; Finite 900].
Proof.
  apply (normalize_col_range [Finite 800; NaN; Finite 820; Finite 900]
           800%Q 900%Q eq_refl eq_refl).
  - discriminate.
  - unfold Qle. vm_compute. discriminate.
Defined.

Lemma row_keys_strictly_increasing_witness :
  Sorted scalar_lt (index gap_table).
Proof.
  apply (row_keys_strictly_increasing simple_float gap_example gap_table).
  reflexivity.
Defined.

Lemma table_labels_are_sensors_witness :
  columns repeated_header_frame = header_names ["time(ms)"; "Speed"; "Speed"]
  /\ exists name, Str "Speed.1" = Str name
                  /\ In name (columns (strip_columns repeated_header_frame))
                  /\ name <> "SECONDS" /\ name <> "time(ms)".
Proof.
  destruct (table_labels_are_sensors simple_float repeated_header_example
              repeated_header_frame repeated_header_table eq_refl eq_refl)
    as [A [B _]].
  split.
  - apply (A ["time(ms)"; "Speed"; "Speed"] [["1000"; "40"; "41"]]). reflexivity.
  - apply (B eq_refl (Str "Speed.1")). right. now left.
Defined.

Lemma other_columns_ignored_witness :
  load_data simple_float units_example
  = load_frame simple_float
      (filter (fun c => mem (fst c) ["SECONDS"; "PID"; "VALUE"])
              (strip_columns units_frame)).
Proof.
  apply (other_columns_ignored simple_float units_example units_frame);
    reflexivity.
Defined.

Lemma header_whitespace_ignored_witness :
  load_data simple_float padded_header_example = load_data simple_float wide_example.
Proof.
  apply (header_whitespace_ignored simple_float wide_example padded_header_example
           ["time(ms)"; "Speed"; "RPM"]
           [" time(ms)"; ("Speed" ++ no_break_space)%string; " RPM "]
           [["1000"; "-"; "800"]; ["2000"; "45"; "820"]]);
    try reflexivity;
    try (repeat constructor; simpl; intuition discriminate);
    simpl; intuition discriminate.
Defined.


Lemma facet_label_after_last_eq_witness :
  after_last_eq "Sensor=RPM" = "RPM".
Proof.
  apply (proj1 facet_label_after_last_eq "Sensor" "RPM"). reflexivity.
Defined.

Lemma sync_checkboxes_keeps_widgets_witness :
  dict_get (Str "Speed") [(Str "Speed", false); (Str "RPM", false)] = Ok false
  /\ dict_get (Str "RPM") [(Str "Speed", false); (Str "RPM", false)]
     = dict_get (Str "RPM") example_dict.
Proof.
  destruct (sync_checkboxes_keeps_widgets example_dict [Str "Speed"; Str "RPM"]
              [(Str "Speed", false)] [(Str "Speed", false); (Str "RPM", false)]
              eq_refl) as [A [B _]].
  split.
  - apply A. reflexivity.
  - apply B; [right; now left | reflexivity].
Defined.

Lemma tokenize_outcomes_witness :
  tokenize undecodable_example = Raise UnicodeDecodeError
  /\ exists records, tokenize wide_example = Ok records.
Proof.
  destruct (tokenize_outcomes undecodable_example) as [A _].
  destruct (tokenize_outcomes wide_example) as [_ B].
  split; [apply A; reflexivity|].
  apply B; [reflexivity|reflexivity|].
  intros c Hc. vm_compute in Hc.
  repeat (destruct Hc as [<-|Hc]; [discriminate|]). contradiction.
Defined.

